(** * Google-Images-Custom-Clone: search pagination, image fallback and proxy

    A shallow embedding of the four source files of the repository

    - [src/app/api/search/route.ts]       (module [SearchRoute])
    - [src/app/page.tsx]                  (module [SearchPage])
    - [src/components/ImageGrid.tsx]      (module [ImageGrid])
    - [src/app/api/image-proxy/route.ts]  (module [ImageProxy])

    together with the properties of the specification that concern them.
    React state variables become fields of a record that every handler
    takes and returns; [fetch] becomes an oracle from requests to outcomes
    and every handler returns the list of requests it issued. *)

From Stdlib Require Import ZArith Ascii String.
From stdpp Require Import gmap strings list fin_maps.

#[local] Set Warnings "-clear-no-such-hyp".

Local Open Scope string_scope.
Local Open Scope list_scope.
Local Open Scope Z_scope.

(** ** JavaScript primitives used by the sources *)

Module Js.

(** A JavaScript number as the sources use it: an integer or [NaN].
    Integers are kept exact; a double holds them exactly up to [2 ^ 53]
    in absolute value, and what is said of larger ones is said of the
    integer written, not of the double nearest to it. *)
Inductive number : Type :=
| NaN
| Num (z : Z).

Definition number_eq_dec (a b : number) : {a = b} + {a <> b}.
Proof. decide equality. apply Z.eq_dec. Defined.

(** [Number.isNaN]. *)
Definition isNaN (n : number) : bool :=
  match n with NaN => true | Num _ => false end.

(** [a < b] and [a > b]: every comparison with [NaN] is false. *)
Definition lt (a b : number) : bool :=
  match a, b with Num x, Num y => x <? y | _, _ => false end.

Definition gt (a b : number) : bool :=
  match a, b with Num x, Num y => x >? y | _, _ => false end.

(** Truthiness of a string: only the empty string is falsy. *)
Definition truthy (s : string) : bool :=
  match s with EmptyString => false | String _ _ => true end.

(** Truthiness of [string | null | undefined]. *)
Definition truthy_opt (o : option string) : bool :=
  match o with Some s => truthy s | None => false end.

(** [a || b] on [string | undefined] operands. *)
Definition or_else (a b : option string) : option string :=
  if truthy_opt a then a else b.

(** Strings are held as the bytes of their UTF-8 encoding.  White space
    is what [parseInt] and [trim] skip: [WhiteSpace] and [LineTerminator]
    of ECMAScript.  [is_space] is its one-byte part: TAB, LF, VT, FF, CR,
    SP. *)
Definition is_space (c : ascii) : bool :=
  let n := nat_of_ascii c in
  ((9 <=? n)%nat && (n <=? 13)%nat) || (n =? 32)%nat.

(** Its two-byte part: U+00A0, encoded C2 A0. *)
Definition space2 (b1 b2 : ascii) : bool :=
  (nat_of_ascii b1 =? 194)%nat && (nat_of_ascii b2 =? 160)%nat.

(** Its three-byte part: U+1680 (E1 9A 80), U+2000 to U+200A (E2 80 80 to
    E2 80 8A), U+2028 and U+2029 (E2 80 A8, E2 80 A9), U+202F (E2 80 AF),
    U+205F (E2 81 9F), U+3000 (E3 80 80) and U+FEFF (EF BB BF). *)
Definition space3 (b1 b2 b3 : ascii) : bool :=
  let n1 := nat_of_ascii b1 in
  let n2 := nat_of_ascii b2 in
  let n3 := nat_of_ascii b3 in
  ((n1 =? 225) && (n2 =? 154) && (n3 =? 128))%nat
  || ((n1 =? 226) && (n2 =? 128)
      && (((128 <=? n3) && (n3 <=? 138)) || (n3 =? 168) || (n3 =? 169) || (n3 =? 175)))%nat
  || ((n1 =? 226) && (n2 =? 129) && (n3 =? 159))%nat
  || ((n1 =? 227) && (n2 =? 128) && (n3 =? 128))%nat
  || ((n1 =? 239) && (n2 =? 187) && (n3 =? 191))%nat.

(** The first byte of a two-byte or three-byte white space character. *)
Definition space_lead (b : ascii) : bool :=
  let n := nat_of_ascii b in
  ((n =? 194) || (n =? 225) || (n =? 226) || (n =? 227) || (n =? 239))%nat.

(** The last byte of one: a continuation byte, 80 to BF. *)
Definition space_trail (b : ascii) : bool :=
  let n := nat_of_ascii b in ((128 <=? n) && (n <=? 191))%nat.

(** Leading white space removed. *)
Fixpoint skip_space (s : string) : string :=
  match s with
  | String b1 t1 =>
      if is_space b1 then skip_space t1
      else if space_lead b1 then
        match t1 with
        | String b2 t2 =>
            if space2 b1 b2 then skip_space t2
            else
              match t2 with
              | String b3 t3 => if space3 b1 b2 b3 then skip_space t3 else s
              | EmptyString => s
              end
        | EmptyString => s
        end
      else s
  | EmptyString => EmptyString
  end.

(** The same on a string whose bytes are in reverse order: trailing
    white space of the original removed. *)
Fixpoint skip_space_back (s : string) : string :=
  match s with
  | String b1 t1 =>
      if is_space b1 then skip_space_back t1
      else if space_trail b1 then
        match t1 with
        | String b2 t2 =>
            if space2 b2 b1 then skip_space_back t2
            else
              match t2 with
              | String b3 t3 => if space3 b3 b2 b1 then skip_space_back t3 else s
              | EmptyString => s
              end
        | EmptyString => s
        end
      else s
  | EmptyString => EmptyString
  end.

Definition digit (c : ascii) : option Z :=
  let n := Z.of_nat (nat_of_ascii c) in
  if (48 <=? n) && (n <=? 57) then Some (n - 48) else None.

(** The longest prefix of decimal digits, read as a number; [NaN] when
    that prefix is empty. *)
Fixpoint digits (acc : number) (s : string) : number :=
  match s with
  | String c t =>
      match digit c with
      | Some d =>
          digits (Num (10 * (match acc with Num a => a | NaN => 0 end) + d)) t
      | None => acc
      end
  | EmptyString => acc
  end.

Definition neg (n : number) : number :=
  match n with Num z => Num (- z) | NaN => NaN end.

(** [parseInt(s, 10)]: leading white space, an optional sign, then the
    longest run of decimal digits; whatever follows is ignored. *)
Definition parseInt10 (s : string) : number :=
  match skip_space s with
  | String "-"%char t => neg (digits NaN t)
  | String "+"%char t => digits NaN t
  | t => digits NaN t
  end.

(** [s.trim()]. *)
Definition trim (s : string) : string :=
  String.rev (skip_space_back (String.rev (skip_space s))).

(** The statuses [NextResponse.json(body, { status })] accepts: 200 to
    599, the null-body statuses 204, 205 and 304 excepted.  With any
    other status the call throws ([RangeError], [TypeError]). *)
Definition json_status (st : Z) : bool :=
  (200 <=? st) && (st <=? 599)
  && negb ((st =? 204) || (st =? 205) || (st =? 304)).

(** Decimal rendering of an integer inside a template literal. *)
Fixpoint pos_digits (fuel : nat) (n : Z) (acc : string) : string :=
  match fuel with
  | O => acc
  | S fuel' =>
      let acc' := String (ascii_of_nat (Z.to_nat (48 + n mod 10))) acc in
      if n / 10 =? 0 then acc' else pos_digits fuel' (n / 10) acc'
  end.

Definition toString (n : Z) : string :=
  if n <? 0 then String "-"%char (pos_digits (Z.to_nat (- n)) (- n) "")
  else pos_digits (S (Z.to_nat n)) n "".

End Js.

(** ** JSON bodies exchanged between the browser, the search route and
    the upstream search API *)

Module Wire.

(** One entry of [items] in the upstream response, with the fields the
    page reads: [title], [link], [image?.thumbnailLink], [thumbnail]. *)
Record RawItem : Type := mkRawItem {
  raw_title : string;
  raw_link : string;
  raw_image_thumbnailLink : option string;
  raw_thumbnail : option string
}.

(** The [error] member of a body.  The page declares it as an object
    [{ message, details? }] (and the upstream API sends such an object);
    the search route sends a plain string. *)
Inductive ErrorField : Type :=
| ErrAbsent
| ErrString (text : string)
| ErrObject (message : option string) (details : option string).

(** A parsed JSON body: [items?], [searchInformation?.totalResults],
    [error?] and the top-level [details?] the search route adds. *)
Record Body : Type := mkBody {
  body_items : option (list RawItem);
  body_totalResults : option string;
  body_error : ErrorField;
  body_details : option string
}.

(** [data.error?.message]: a string has no such property. *)
Definition error_message (b : Body) : option string :=
  match body_error b with
  | ErrObject m _ => m
  | ErrString _ | ErrAbsent => None
  end.

(** [data.error?.details]. *)
Definition error_details (b : Body) : option string :=
  match body_error b with
  | ErrObject _ d => d
  | ErrString _ | ErrAbsent => None
  end.

(** What [await fetch(...)] followed by [await response.json()] can give:
    the [fetch] promise rejects, or a response arrives with a status and a
    body that parses ([Some]) or makes [json()] throw ([None]). *)
Inductive Outcome : Type :=
| Rejected
| Responded (status : Z) (body : option Body).

(** [response.ok]. *)
Definition ok (status : Z) : bool := (200 <=? status) && (status <=? 299).

End Wire.

(** ** [src/app/api/search/route.ts] *)

Module SearchRoute.
Import Wire.

(** [process.env.NEXT_PUBLIC_GOOGLE_API_KEY] and
    [process.env.NEXT_PUBLIC_SEARCH_ENGINE_ID]. *)
Record Config : Type := mkConfig {
  API_KEY : option string;
  CX : option string
}.

(** [request.nextUrl.searchParams]: [get] gives [null] ([None]) or the
    decoded value. *)
Record Request : Type := mkRequest {
  param_q : option string;
  param_start : option string
}.

(** The values interpolated into the upstream URL
    [BASE_URL?key=..&cx=..&q=..&searchType=image&imgSize=xlarge&num=10&start=..]. *)
Record UpstreamRequest : Type := mkUpstreamRequest {
  up_key : string;
  up_cx : string;
  up_q : string;
  up_num : Z;
  up_start : Js.number
}.

Record Response : Type := mkResponse {
  status : Z;
  body : Body
}.

Definition error_body (text : string) (details : option string) : Body :=
  {| body_items := None; body_totalResults := None;
     body_error := ErrString text; body_details := details |}.

(** Lines 38-39: [parseInt(searchParams.get('start') || '1', 10)], then
    [Number.isNaN(startParam) || startParam < 1 ? 1 : startParam]. *)
Definition startParam (r : Request) : Js.number :=
  Js.parseInt10
    (match Js.or_else (param_start r) (Some "1") with
     | Some s => s
     | None => "1"
     end).

Definition effective_start (r : Request) : Js.number :=
  let sp := startParam r in
  if Js.isNaN sp || Js.lt sp (Js.Num 1) then Js.Num 1 else sp.

(** [GET]: the response, and the upstream requests issued.  Whatever is
    thrown inside the [try] of lines 41-64, a status that
    [NextResponse.json] refuses included, ends in the [catch]. *)
Definition GET (cfg : Config) (upstream : UpstreamRequest -> Outcome)
    (r : Request) : Response * list UpstreamRequest :=
  match API_KEY cfg, CX cfg with
  | Some key, Some cx =>
      if Js.truthy key && Js.truthy cx then
        match param_q r with
        | Some query =>
            if Js.truthy query then
              let url := {| up_key := key; up_cx := cx; up_q := query;
                            up_num := 10; up_start := effective_start r |} in
              (match upstream url with
               | Responded st (Some data) =>
                   if negb (ok st) then
                     if Js.json_status st then
                       {| status := st;
                          body := error_body "Search API error" (error_message data) |}
                     else
                       {| status := 500; body := error_body "Internal server error" None |}
                   else {| status := 200; body := data |}
               | Responded _ None | Rejected =>
                   {| status := 500; body := error_body "Internal server error" None |}
               end, [url])
            else ({| status := 400; body := error_body "Missing search query" None |}, [])
        | None => ({| status := 400; body := error_body "Missing search query" None |}, [])
        end
      else ({| status := 500; body := error_body "API configuration missing" None |}, [])
  | _, _ => ({| status := 500; body := error_body "API configuration missing" None |}, [])
  end.

End SearchRoute.

(** ** [src/app/page.tsx] *)

Module SearchPage.
Import Wire.

Record SearchItem : Type := mkSearchItem {
  title : string;
  link : string;
  thumbnail : option string
}.

(** The React state variables of [SearchPage]. *)
Record State : Type := mkState {
  query : string;
  items : list SearchItem;
  loading : bool;
  loadingMore : bool;
  error : option string;
  start : Z;
  hasMore : bool;
  totalResults : option Js.number
}.

(** The [useState] initial values. *)
Definition initial : State :=
  {| query := ""; items := []; loading := false; loadingMore := false;
     error := None; start := 1; hasMore := true; totalResults := None |}.

Definition setQuery (v : string) (s : State) : State :=
  {| query := v; items := items s; loading := loading s;
     loadingMore := loadingMore s; error := error s; start := start s;
     hasMore := hasMore s; totalResults := totalResults s |}.

Definition setItems (f : list SearchItem -> list SearchItem) (s : State) : State :=
  {| query := query s; items := f (items s); loading := loading s;
     loadingMore := loadingMore s; error := error s; start := start s;
     hasMore := hasMore s; totalResults := totalResults s |}.

Definition setLoading (v : bool) (s : State) : State :=
  {| query := query s; items := items s; loading := v;
     loadingMore := loadingMore s; error := error s; start := start s;
     hasMore := hasMore s; totalResults := totalResults s |}.

Definition setLoadingMore (v : bool) (s : State) : State :=
  {| query := query s; items := items s; loading := loading s;
     loadingMore := v; error := error s; start := start s;
     hasMore := hasMore s; totalResults := totalResults s |}.

Definition setError (v : option string) (s : State) : State :=
  {| query := query s; items := items s; loading := loading s;
     loadingMore := loadingMore s; error := v; start := start s;
     hasMore := hasMore s; totalResults := totalResults s |}.

Definition setStart (v : Z) (s : State) : State :=
  {| query := query s; items := items s; loading := loading s;
     loadingMore := loadingMore s; error := error s; start := v;
     hasMore := hasMore s; totalResults := totalResults s |}.

Definition setHasMore (v : bool) (s : State) : State :=
  {| query := query s; items := items s; loading := loading s;
     loadingMore := loadingMore s; error := error s; start := start s;
     hasMore := v; totalResults := totalResults s |}.

Definition setTotalResults (v : option Js.number) (s : State) : State :=
  {| query := query s; items := items s; loading := loading s;
     loadingMore := loadingMore s; error := error s; start := start s;
     hasMore := hasMore s; totalResults := v |}.

(** The values interpolated into
    [/api/search?q=${encodeURIComponent(q)}&start=${startIndex}]. *)
Record Request : Type := mkRequest {
  req_q : string;
  req_start : Z
}.

(** Lines 55-59: the raw item mapped to [SearchItem]. *)
Definition toSearchItem (it : RawItem) : SearchItem :=
  {| title := raw_title it;
     link := raw_link it;
     thumbnail :=
       Js.or_else (Js.or_else (raw_image_thumbnailLink it) (raw_thumbnail it)) None |}.

(** Lines 64-69: [all.filter] with the [seen] set threaded through. *)
Fixpoint dedupe_from (seen : gset string) (all : list SearchItem) : list SearchItem :=
  match all with
  | [] => []
  | i :: rest =>
      if decide (link i ∈ seen) then dedupe_from seen rest
      else i :: dedupe_from ({[link i]} ∪ seen) rest
  end.

Definition dedupe (all : list SearchItem) : list SearchItem :=
  dedupe_from ∅ all.

(** Line 54: [data.items || []] mapped. *)
Definition newItems_of (data : Body) : list SearchItem :=
  map toSearchItem (match body_items data with Some raw => raw | None => [] end).

(** Line 72. *)
Definition total_of (data : Body) : option Js.number :=
  match body_totalResults data with
  | Some t => if Js.truthy t then Some (Js.parseInt10 t) else None
  | None => None
  end.

(** Lines 53-84, the [response.ok] branch. *)
Definition on_ok (startIndex : Z) (append : bool) (data : Body) (s : State) : State :=
  let newItems := newItems_of data in
  let s := setItems (fun prev => dedupe (if append then prev ++ newItems else newItems)) s in
  let total := total_of data in
  let s := setTotalResults total s in
  let nextStart := startIndex + Z.of_nat (length newItems) in
  let s := setStart nextStart s in
  if (Nat.eqb (length newItems) 0)
     || (match total with
         | Some t => Js.gt (Js.Num nextStart) t
         | None => false
         end)
  then setHasMore false s
  else setHasMore true s.

(** Lines 85-88, the non-ok branch. *)
Definition unknown_error : string := "An unknown error occurred.".

Definition on_not_ok (data : Body) (s : State) : State :=
  let msg :=
    match Js.or_else (Js.or_else (error_details data) (error_message data))
                     (Some unknown_error) with
    | Some m => m
    | None => unknown_error
    end in
  setHasMore false (setError (Some msg) s).

(** Lines 89-92, the [catch] block. *)
Definition connect_error : string := "Could not connect to the search service.".

Definition on_catch (s : State) : State :=
  setHasMore false (setError (Some connect_error) s).

(** Lines 93-96, the [finally] block. *)
Definition finally (s : State) : State :=
  setLoadingMore false (setLoading false s).

(** [fetchResults] up to its first [await]: the loading flag, the
    offset guard of lines 42-47, and the request to send if any. *)
Definition fetchResults_start (q : string) (startIndex : Z) (append : bool)
    (s : State) : State * option Request :=
  let s := if append then setLoadingMore true s else setLoading true s in
  if startIndex >? 100 then
    let s := if append then setLoadingMore false s else setLoading false s in
    (finally (setHasMore false s), None)
  else (s, Some {| req_q := q; req_start := startIndex |}).

(** [fetchResults] from the moment the request settles. *)
Definition fetchResults_settle (startIndex : Z) (append : bool) (o : Outcome)
    (s : State) : State :=
  finally
    (match o with
     | Responded st (Some data) =>
         if ok st then on_ok startIndex append data s else on_not_ok data s
     | Responded _ None | Rejected => on_catch s
     end).

(** [fetchResults] run to completion against a network oracle; the second
    component lists the requests sent. *)
Definition fetchResults (net : Request -> Outcome) (q : string) (startIndex : Z)
    (append : bool) (s : State) : State * list Request :=
  match fetchResults_start q startIndex append s with
  | (s1, Some r) => (fetchResults_settle startIndex append (net r) s1, [r])
  | (s1, None) => (s1, [])
  end.

(** Lines 99-106, [handleSearch] before it calls [fetchResults]. *)
Definition handleSearch_reset (s : State) : State :=
  setTotalResults None (setHasMore true (setStart 1 (setItems (fun _ => []) (setError None s)))).

Definition handleSearch (net : Request -> Outcome) (s : State) : State * list Request :=
  if negb (Js.truthy (Js.trim (query s))) then (s, [])
  else fetchResults net (Js.trim (query s)) 1 false (handleSearch_reset s).

(** Line 116, the guard of the observer callback for an intersecting
    entry. *)
Definition may_load_more (s : State) : bool :=
  hasMore s && negb (loadingMore s) && negb (loading s)
  && (0 <? length (items s))%nat.

(** Lines 114-120: the continuation trigger, with the fetch run to
    completion. *)
Definition loadMore (net : Request -> Outcome) (s : State) : State * list Request :=
  if may_load_more s then fetchResults net (Js.trim (query s)) (start s) true s
  else (s, []).

(** *** The page as an event-driven system

    A fetch stays outstanding between [fetchResults_start] and
    [fetchResults_settle]; other events may be handled in between. *)

Record Pending : Type := mkPending {
  p_startIndex : Z;
  p_append : bool
}.

Record Page : Type := mkPage {
  state : State;
  outstanding : list Pending
}.

Inductive Event : Type :=
| Typed (text : string)          (* the input's onChange *)
| Submit                         (* the form's onSubmit *)
| Visible                        (* the sentinel starts intersecting *)
| Settled (i : nat) (o : Outcome). (* the i-th outstanding fetch settles *)

Definition launch (q : string) (startIndex : Z) (append : bool) (p : Page)
    (s : State) : Page * list Request :=
  match fetchResults_start q startIndex append s with
  | (s1, Some r) =>
      ({| state := s1;
          outstanding := outstanding p ++ [{| p_startIndex := startIndex; p_append := append |}] |},
       [r])
  | (s1, None) => ({| state := s1; outstanding := outstanding p |}, [])
  end.

Definition step (e : Event) (p : Page) : Page * list Request :=
  let s := state p in
  match e with
  | Typed text => ({| state := setQuery text s; outstanding := outstanding p |}, [])
  | Submit =>
      (* the submit button is disabled while [loading || !query.trim()] *)
      if loading s || negb (Js.truthy (Js.trim (query s))) then (p, [])
      else launch (Js.trim (query s)) 1 false p (handleSearch_reset s)
  | Visible =>
      if may_load_more s then launch (Js.trim (query s)) (start s) true p s
      else (p, [])
  | Settled i o =>
      match outstanding p !! i with
      | Some f =>
          ({| state := fetchResults_settle (p_startIndex f) (p_append f) o s;
              outstanding := delete i (outstanding p) |}, [])
      | None => (p, [])
      end
  end.

Fixpoint run (es : list Event) (p : Page) : Page * list Request :=
  match es with
  | [] => (p, [])
  | e :: es' =>
      let '(p1, r1) := step e p in
      let '(p2, r2) := run es' p1 in
      (p2, r1 ++ r2)
  end.

(** The events of one session: everything but a new submission. *)
Definition in_session (e : Event) : bool :=
  match e with Submit => false | _ => true end.

(** *** Vocabulary of the specification *)

Definition links (l : list SearchItem) : list string := map link l.

(** First-seen order, in the words of the specification: an entry stays
    exactly when no earlier entry carries its link, and the entries that
    stay keep their relative order.  [earlier] lists the links met so
    far. *)
Fixpoint keep_first_after (earlier : list string) (l : list SearchItem)
  : list SearchItem :=
  match l with
  | [] => []
  | i :: rest =>
      if bool_decide (link i ∈ earlier) then keep_first_after earlier rest
      else i :: keep_first_after (earlier ++ [link i]) rest
  end.

Definition keep_first (l : list SearchItem) : list SearchItem :=
  keep_first_after [] l.

(** The number of items a fetch merged into the session: by how much
    [items] grew over what the fetch started from ([prev] when appending,
    nothing when replacing). *)
Definition merged_count (append : bool) (s s' : State) : Z :=
  Z.of_nat (length (items s'))
  - Z.of_nat (length (if append then items s else [])).

(** A successful page fetch: [startIndex], [append], the 2xx status and
    the body. *)
Record OkFetch : Type := mkOkFetch {
  of_startIndex : Z;
  of_append : bool;
  of_status : Z;
  of_data : Body
}.

Definition settle_ok (f : OkFetch) (s : State) : State :=
  fetchResults_settle (of_startIndex f) (of_append f)
    (Responded (of_status f) (Some (of_data f))) s.

Fixpoint settle_all (fs : list OkFetch) (s : State) : State :=
  match fs with
  | [] => s
  | f :: fs' => settle_all fs' (settle_ok f s)
  end.

(** Everything the session was handed, in arrival order: a replacing
    fetch starts over, an appending one extends. *)
Fixpoint received (fs : list OkFetch) (acc : list SearchItem) : list SearchItem :=
  match fs with
  | [] => acc
  | f :: fs' =>
      received fs'
        (if of_append f then acc ++ newItems_of (of_data f)
         else newItems_of (of_data f))
  end.

(** The offset rule as the specification words it: the next offset is
    the request offset plus the number of newly merged items. *)
Definition advances_by_merged (o : Z) (append : bool) (s s' : State) : Prop :=
  start s' = o + merged_count append s s'.

(** The [hasMore] rule as the specification words it, "new items" being
    the items the page added to the session. *)
Definition hasMore_by_merged (append : bool) (s s' : State) : Prop :=
  hasMore s' = false <->
  (merged_count append s s' = 0
   \/ exists t, totalResults s' = Some (Js.Num t) /\ start s' > t).


End SearchPage.

(** ** The page talking to the search route *)

Module EndToEnd.
Import Wire.

(** The network as the page sees it when [/api/search] is served by
    [SearchRoute.GET]: [q] is URL-encoded by the page and decoded by
    [searchParams], [start] travels as a decimal string, and the body
    travels as JSON. *)
Definition via_route (cfg : SearchRoute.Config)
    (upstream : SearchRoute.UpstreamRequest -> Outcome)
    (r : SearchPage.Request) : Outcome :=
  let resp :=
    fst (SearchRoute.GET cfg upstream
           {| SearchRoute.param_q := Some (SearchPage.req_q r);
              SearchRoute.param_start := Some (Js.toString (SearchPage.req_start r)) |}) in
  Responded (SearchRoute.status resp) (Some (SearchRoute.body resp)).

End EndToEnd.

(** ** [src/components/ImageGrid.tsx] *)

Module ImageGrid.

Record ImageResult : Type := mkImageResult {
  title : string;
  link : string;
  thumbnail : option string
}.

(** The two [Record<string, boolean>] state variables. *)
Record State : Type := mkState {
  failedMap : gmap string bool;
  useProxyMap : gmap string bool
}.

Definition initial : State := {| failedMap := ∅; useProxyMap := ∅ |}.

(** The names every plain object answers to through [Object.prototype];
    each of them reads as a truthy value. *)
Definition inherited (k : string) : bool :=
  bool_decide
    (k ∈ ["constructor"; "hasOwnProperty"; "isPrototypeOf"; "propertyIsEnumerable";
          "toLocaleString"; "toString"; "valueOf"; "__proto__";
          "__defineGetter__"; "__defineSetter__"; "__lookupGetter__";
          "__lookupSetter__"]).

(** [m[k]] used as a condition: the map holds the object's own
    properties; a key it lacks is looked up in [Object.prototype] and is
    [undefined] unless found there. *)
Definition flag (m : gmap string bool) (k : string) : bool :=
  match m !! k with Some b => b | None => inherited k end.

(** Lines 33-45. *)
Definition markFailed (l : string) (s : State) : State :=
  {| failedMap :=
       if flag (failedMap s) l then failedMap s else <[l := true]> (failedMap s);
     useProxyMap :=
       if negb (flag (useProxyMap s) l) then useProxyMap s
       else delete l (useProxyMap s) |}.

(** Lines 47-52. *)
Definition enableProxy (l : string) (s : State) : State :=
  {| failedMap := failedMap s;
     useProxyMap :=
       if flag (useProxyMap s) l then useProxyMap s
       else <[l := true]> (useProxyMap s) |}.

(** Lines 186-193 (grid) and 149-155 (lightbox): the [onError] handler of
    the [img] element of a link.  The handler tests the [useProxyMap] of
    the render it was created in ([view]); the two setters then update
    the current state. *)
Definition onError_in (view : State) (l : string) (s : State) : State :=
  if negb (flag (useProxyMap view) l) then enableProxy l s else markFailed l s.

(** The handler of the current render. *)
Definition onError (l : string) (s : State) : State := onError_in s l s.

(** What is asked for an image: the origin directly, or through
    [/api/image-proxy?u=...]. *)
Inductive Source : Type :=
| Origin (url : string)
| ViaProxy (url : string).

(** Lines 80-87. *)
Definition srcFor (s : State) (item : ImageResult) (preferThumbnail : bool) : Source :=
  let base :=
    match thumbnail item with
    | Some t => if preferThumbnail && Js.truthy t then t else link item
    | None => link item
    end in
  if flag (useProxyMap s) (link item) then ViaProxy base else Origin base.

(** Lines 177-195 (grid) and 140-158 (lightbox): [ImageFallback] is
    rendered in place of the [img] when [failedMap[link]] holds, so that
    nothing is requested; [None] stands for that placeholder. *)
Definition rendered (s : State) (item : ImageResult) (preferThumbnail : bool)
  : option Source :=
  if flag (failedMap s) (link item) then None
  else Some (srcFor s item preferThumbnail).

(** A load failure of the image of link [l]: the [img] element and its
    [onError] handler exist only while [failedMap[l]] is falsy. *)
Definition load_failure (l : string) (s : State) : State :=
  if flag (failedMap s) l then s else onError l s.

Fixpoint load_failures (ls : list string) (s : State) : State :=
  match ls with
  | [] => s
  | l :: ls' => load_failures ls' (load_failure l s)
  end.

(** The per-link load state of the specification. *)
Record ImageLoadState : Type := mkImageLoadState {
  usingProxy : bool;
  failed : bool
}.

Definition load_state (s : State) (l : string) : ImageLoadState :=
  {| usingProxy := flag (useProxyMap s) l; failed := flag (failedMap s) l |}.

Inductive Phase : Type := Direct | ProxyRetry | Failed.

Definition phase (s : State) (l : string) : Phase :=
  if flag (failedMap s) l then Failed
  else if flag (useProxyMap s) l then ProxyRetry
  else Direct.

Definition next (p : Phase) : Phase :=
  match p with Direct => ProxyRetry | ProxyRetry => Failed | Failed => Failed end.

(** *** The grid between renders

    An [img] and its [onError] handler are those of the last render
    ([view]); the setters the handler calls update the state that the
    next render will show ([cur]).  Several load failures can be handled
    before the next render. *)

Record Grid : Type := mkGrid {
  view : State;
  cur : State
}.

Definition initial_grid : Grid := {| view := initial; cur := initial |}.

Inductive GridEvent : Type :=
| Fails (l : string)   (* an [img] of link [l] fires [error] *)
| Renders.             (* the component renders again *)

Definition handle (e : GridEvent) (g : Grid) : Grid :=
  match e with
  | Fails l =>
      if flag (failedMap (view g)) l then g
      else {| view := view g; cur := onError_in (view g) l (cur g) |}
  | Renders => {| view := cur g; cur := cur g |}
  end.

Fixpoint handles (es : list GridEvent) (g : Grid) : Grid :=
  match es with
  | [] => g
  | e :: es' => handles es' (handle e g)
  end.

(** How often [usingProxy] of link [l] goes from unset to set along a
    sequence of events. *)
Fixpoint proxy_rises (l : string) (es : list GridEvent) (g : Grid) : nat :=
  match es with
  | [] => O
  | e :: es' =>
      let g' := handle e g in
      ((if negb (flag (useProxyMap (cur g)) l) && flag (useProxyMap (cur g')) l
        then 1 else 0)
       + proxy_rises l es' g')%nat
  end.

(** How far the state may be ahead of what is rendered, for one link:
    not at all once the placeholder is rendered, and by one step
    otherwise. *)
Definition coherent (g : Grid) (l : string) : Prop :=
  let fv := flag (failedMap (view g)) l in
  let pv := flag (useProxyMap (view g)) l in
  let fc := flag (failedMap (cur g)) l in
  let pc := flag (useProxyMap (cur g)) l in
  (fv = true /\ fc = true /\ pv = inherited l /\ pc = inherited l)
  \/ (inherited l = false /\ fv = false /\ pv = false /\ fc = false)
  \/ (inherited l = false /\ fv = false /\ pv = true
      /\ ((fc = false /\ pc = true) \/ (fc = true /\ pc = false))).

(** The progression as the specification words it: of two load failures
    of a link the second marks it failed. *)
Definition second_failure_fails (g : Grid) (l : string) : Prop :=
  phase (cur (handles [Fails l; Fails l] g)) l = Failed.

End ImageGrid.

(** ** [src/app/api/image-proxy/route.ts] *)

Module ImageProxy.

(** The part of a parsed [URL] the route reads. *)
Record URL : Type := mkURL {
  protocol : string
}.

(** How the target behaves when fetched: it answers after some
    milliseconds, the connection fails after some milliseconds, or
    nothing ever comes back. *)
Inductive Upstream : Type :=
| Answers (after_ms : Z) (status : Z) (statusText : string)
          (contentType : option string) (content : string)
| Breaks (after_ms : Z)
| Silent.

(** Line 27: [setTimeout(() => controller.abort(), 10_000)]. *)
Definition timeout_ms : Z := 10000.

(** What [await fetch(url, { signal })] gives: a response, a rejection
    named [AbortError], or another rejection. *)
Inductive Fetched : Type :=
| Resolved (status : Z) (statusText : string) (contentType : option string)
           (content : string)
| AbortError
| OtherError.

Definition await_fetch (u : Upstream) : Fetched :=
  match u with
  | Answers t st txt ct c => if t <? timeout_ms then Resolved st txt ct c else AbortError
  | Breaks t => if t <? timeout_ms then OtherError else AbortError
  | Silent => AbortError
  end.

Inductive ResponseBody : Type :=
| NoBody
| Json (error : string) (status : option Z) (statusText : option string)
| Stream (content : string).

Record Response : Type := mkResponse {
  status : Z;
  headers : list (string * string);
  body : ResponseBody
}.

Definition CORS_HEADERS : list (string * string) :=
  [("Access-Control-Allow-Origin", "*");
   ("Access-Control-Allow-Methods", "GET,OPTIONS")].

(** Lines 8-10. *)
Definition OPTIONS : Response :=
  {| status := 204; headers := CORS_HEADERS; body := NoBody |}.

(** [upstream.ok]. *)
Definition ok (st : Z) : bool := (200 <=? st) && (st <=? 299).

Definition allowed_protocol (p : string) : bool :=
  if decide (p = "http:") then true
  else if decide (p = "https:") then true
  else false.

(** The upstream did not settle within the bound of [timeout_ms]. *)
Definition timed_out (u : Upstream) : bool :=
  match u with
  | Answers t _ _ _ _ | Breaks t => negb (t <? timeout_ms)
  | Silent => true
  end.

(** Any upstream problem: no answer in time, a broken connection, or an
    answer with a non-success status. *)
Definition upstream_problem (u : Upstream) : bool :=
  match u with
  | Answers t st _ _ _ => negb (t <? timeout_ms) || negb (ok st)
  | Breaks _ | Silent => true
  end.

Section Route.

(** [new URL(url)]: [None] when the constructor throws. *)
Variable parse : string -> option URL.

(** Lines 18-24: the [try] block that parses and checks the protocol. *)
Definition validate (url : string) : option URL :=
  match parse url with
  | Some parsed => if allowed_protocol (protocol parsed) then Some parsed else None
  | None => None
  end.

(** Lines 12-67, [GET]: the response and the URLs fetched upstream.
    The answer of lines 42-45 is built inside the [try]: a status that
    [NextResponse.json] refuses ends in the [catch] of lines 59-66, with
    an error that is not an [AbortError]. *)
Definition GET (net : string -> Upstream) (u : option string)
  : Response * list string :=
  match u with
  | Some url =>
      if Js.truthy url then
        match validate url with
        | Some _ =>
            (match await_fetch (net url) with
             | Resolved st txt ct content =>
                 if negb (ok st) then
                   if Js.json_status (Z.max 400 st) then
                     {| status := Z.max 400 st; headers := CORS_HEADERS;
                        body := Json "Upstream fetch failed" (Some st) (Some txt) |}
                   else
                     {| status := 502; headers := CORS_HEADERS;
                        body := Json "Proxy fetch error" None None |}
                 else
                   {| status := 200;
                      headers :=
                        [("content-type",
                          match Js.or_else ct (Some "application/octet-stream") with
                          | Some v => v
                          | None => "application/octet-stream"
                          end);
                         ("cache-control",
                          "public, max-age=86400, stale-while-revalidate=604800")]
                        ++ CORS_HEADERS;
                      body := Stream content |}
             | AbortError =>
                 {| status := 502; headers := CORS_HEADERS;
                    body := Json "Upstream timeout" None None |}
             | OtherError =>
                 {| status := 502; headers := CORS_HEADERS;
                    body := Json "Proxy fetch error" None None |}
             end, [url])
        | None =>
            ({| status := 400; headers := CORS_HEADERS;
                body := Json "Invalid url" None None |}, [])
        end
      else
        ({| status := 400; headers := CORS_HEADERS;
            body := Json "Missing url parameter (u)" None None |}, [])
  | None =>
      ({| status := 400; headers := CORS_HEADERS;
          body := Json "Missing url parameter (u)" None None |}, [])
  end.

End Route.

(** A parser that reads only the scheme ([letters, digits, +, -, .] up to
    the first colon, lower-cased), standing in for the platform's URL
    parser in the examples below. *)
Definition lower (c : ascii) : ascii :=
  let n := nat_of_ascii c in
  if ((65 <=? n) && (n <=? 90))%nat then ascii_of_nat (n + 32) else c.

Definition is_alpha (c : ascii) : bool :=
  let n := nat_of_ascii (lower c) in ((97 <=? n) && (n <=? 122))%nat.

Definition is_scheme_char (c : ascii) : bool :=
  let n := nat_of_ascii c in
  is_alpha c || ((48 <=? n) && (n <=? 57))%nat
  || (n =? 43)%nat || (n =? 45)%nat || (n =? 46)%nat.

Fixpoint scheme_rest (s : string) : option string :=
  match s with
  | EmptyString => None
  | String c t =>
      if Ascii.eqb c ":"%char then Some ":"
      else if is_scheme_char c then
        match scheme_rest t with
        | Some r => Some (String (lower c) r)
        | None => None
        end
      else None
  end.

Definition scheme_parse (s : string) : option URL :=
  match s with
  | String c t =>
      if is_alpha c then
        match scheme_rest t with
        | Some r => Some {| protocol := String (lower c) r |}
        | None => None
        end
      else None
  | EmptyString => None
  end.

End ImageProxy.

(** ** [src/components/ImageGrid.tsx]: the lightbox *)

Module Lightbox.

Section View.

(** The zoom factor is a JavaScript double; its arithmetic stays
    abstract: [one] is the literal [1], [zoom_in] is
    [s => Math.min(3, s + 0.25)] and [zoom_out] is
    [s => Math.max(0.5, s - 0.25)]. *)
Variable number : Type.
Variable one : number.
Variable zoom_in zoom_out : number -> number.

(** The state variables [expandedIndex] and [scale]. *)
Record View : Type := mkView {
  expandedIndex : option Z;
  scale : number
}.

(** Lines 54-57. *)
Definition openAt (index : Z) (v : View) : View :=
  {| expandedIndex := Some index; scale := one |}.

(** Lines 58-61. *)
Definition close (v : View) : View :=
  {| expandedIndex := None; scale := one |}.

(** Line 62: [i === null ? null : Math.max(0, i - 1)]. *)
Definition prev (v : View) : View :=
  {| expandedIndex :=
       match expandedIndex v with
       | None => None
       | Some i => Some (Z.max 0 (i - 1))
       end;
     scale := scale v |}.

(** Line 63: [i === null ? null : Math.min(items.length - 1, i + 1)]. *)
Definition next (len : nat) (v : View) : View :=
  {| expandedIndex :=
       match expandedIndex v with
       | None => None
       | Some i => Some (Z.min (Z.of_nat len - 1) (i + 1))
       end;
     scale := scale v |}.

Definition setScale (f : number -> number) (v : View) : View :=
  {| expandedIndex := expandedIndex v; scale := f (scale v) |}.

(** Lines 67-74: the [keydown] listener, its five tests in order. *)
Definition onKey (len : nat) (key : string) (v : View) : View :=
  match expandedIndex v with
  | None => v
  | Some _ =>
      let v := if decide (key = "Escape") then close v else v in
      let v := if decide (key = "ArrowLeft") then prev v else v in
      let v := if decide (key = "ArrowRight") then next len v else v in
      let v := if decide (key = "+") then setScale zoom_in v
               else if decide (key = "=") then setScale zoom_in v else v in
      if decide (key = "-") then setScale zoom_out v else v
  end.

(** Line 92: [expandedIndex !== null && items[expandedIndex]], the entry
    the overlay shows, if any. *)
Definition shown {A : Type} (items : list A) (v : View) : option A :=
  match expandedIndex v with
  | Some i => if 0 <=? i then items !! Z.to_nat i else None
  | None => None
  end.

(** The buttons and keys that move within the overlay. *)
Inductive Move : Type := Prev | Next | Key (key : string).

Definition move (len : nat) (m : Move) (v : View) : View :=
  match m with
  | Prev => prev v
  | Next => next len v
  | Key k => onKey len k v
  end.

Fixpoint moves (len : nat) (ms : list Move) (v : View) : View :=
  match ms with
  | [] => v
  | m :: ms' => moves len ms' (move len m v)
  end.

End View.

End Lightbox.

(** ** Vocabulary for the behaviour of the page and the proxy *)

Module Session.
Import SearchPage.


(** The number read so far by [Js.digits], nothing read counting as 0. *)
Definition value (x : Js.number) : Z :=
  match x with Js.Num a => a | Js.NaN => 0 end.

Definition initial_page : Page :=
  {| state := initial; outstanding := [] |}.

(** Scrolling and typing: the events that are not a submission and not
    the settling of a fetch. *)
Definition passive (e : Event) : bool :=
  match e with
  | Visible | Typed _ => true
  | Submit | Settled _ _ => false
  end.

(** The guard of the continuation trigger cannot pass. *)
Definition blocked (p : Page) : Prop :=
  hasMore (state p) = false
  \/ loadingMore (state p) = true
  \/ loading (state p) = true.

(** Every offset the page holds, in its state or in a fetch under way,
    is at least 1. *)
Definition offsets_ok (p : Page) : Prop :=
  1 <= start (state p)
  /\ Forall (fun f => 1 <= p_startIndex f) (outstanding p).

(** Nothing is outstanding and both loading flags are down. *)
Definition idle (p : Page) : Prop :=
  outstanding p = []
  /\ loading (state p) = false
  /\ loadingMore (state p) = false.

(** The loading flags are up exactly while a fetch, the only one, is
    outstanding. *)
Definition in_step (p : Page) : Prop :=
  idle p
  \/ (length (outstanding p) = 1%nat
      /\ loading (state p) || loadingMore (state p) = true).

End Session.

Module ProxySpec.
Import ImageProxy.

(** The value a list of headers gives for a name, if any. *)
Fixpoint header (name : string) (hs : list (string * string)) : option string :=
  match hs with
  | [] => None
  | (k, v) :: rest => if decide (k = name) then Some v else header name rest
  end.

(** The two cross-origin headers of [CORS_HEADERS] are present. *)
Definition cross_origin (r : Response) : Prop :=
  header "Access-Control-Allow-Origin" (headers r) = Some "*"
  /\ header "Access-Control-Allow-Methods" (headers r) = Some "GET,OPTIONS".

End ProxySpec.

(** ** Sample data for the examples *)

Module Samples.
Import Wire.

Definition raw (l : string) : RawItem :=
  {| raw_title := "t"; raw_link := l;
     raw_image_thumbnailLink := None; raw_thumbnail := None |}.

Definition page (ls : list string) (total : option string) : Body :=
  {| body_items := Some (map raw ls); body_totalResults := total;
     body_error := ErrAbsent; body_details := None |}.

(** A search API that answers offset 1 with [first] and every other
    offset with [later]. *)
Definition two_pages (first later : Body) (r : SearchPage.Request) : Outcome :=
  if SearchPage.req_start r =? 1 then Responded 200 (Some first)
  else Responded 200 (Some later).

Definition typed (q : string) : SearchPage.Page :=
  {| SearchPage.state := SearchPage.setQuery q SearchPage.initial;
     SearchPage.outstanding := [] |}.

(** The state after a search for "cats" whose first page holds the one
    link [a]. *)
Definition after_first_page : SearchPage.State :=
  fst (SearchPage.handleSearch
         (two_pages (page ["a"] None) (page [] None))
         (SearchPage.setQuery "cats" SearchPage.initial)).

Definition ten_links : list string :=
  ["l0"; "l1"; "l2"; "l3"; "l4"; "l5"; "l6"; "l7"; "l8"; "l9"].

(** The upstream search API refusing a request. *)
Definition quota_error : Body :=
  {| body_items := None; body_totalResults := None;
     body_error := ErrObject (Some "Quota exceeded") None;
     body_details := None |}.

Definition config : SearchRoute.Config :=
  {| SearchRoute.API_KEY := Some "key"; SearchRoute.CX := Some "cx" |}.

Definition upstream_refuses (_ : SearchRoute.UpstreamRequest) : Outcome :=
  Responded 403 (Some quota_error).

(** White space outside ASCII, as UTF-8: U+00A0, U+3000, U+2028, U+FEFF. *)
Definition nbsp : string :=
  String (ascii_of_nat 194) (String (ascii_of_nat 160) "").
Definition ideographic_space : string :=
  String (ascii_of_nat 227) (String (ascii_of_nat 128) (String (ascii_of_nat 128) "")).
Definition line_separator : string :=
  String (ascii_of_nat 226) (String (ascii_of_nat 128) (String (ascii_of_nat 168) "")).
Definition byte_order_mark : string :=
  String (ascii_of_nat 239) (String (ascii_of_nat 187) (String (ascii_of_nat 191) "")).
(** U+00E9, a letter whose first byte is not that of a white space, and
    U+2030, which shares its first two bytes with the spaces of U+2000. *)
Definition e_acute : string :=
  String (ascii_of_nat 195) (String (ascii_of_nat 169) "").
Definition per_mille : string :=
  String (ascii_of_nat 226) (String (ascii_of_nat 128) (String (ascii_of_nat 176) "")).

End Samples.

(** * Properties *)

(** ** [parseInt] and friends *)

Example parseInt10_examples :
  Js.parseInt10 "10" = Js.Num 10 /\
  Js.parseInt10 "  42px" = Js.Num 42 /\
  Js.parseInt10 "-7" = Js.Num (-7) /\
  Js.parseInt10 "abc" = Js.NaN /\
  Js.parseInt10 "" = Js.NaN /\
  Js.parseInt10 "0" = Js.Num 0 /\
  Js.toString 120 = "120" /\
  Js.toString (-5) = "-5" /\
  Js.toString 0 = "0" /\
  Js.trim "  cats " = "cats".
Proof. repeat split; reflexivity. Qed.

(** A string whose first character after the white space is neither a
    digit nor a sign does not parse. *)
Lemma parseInt10_not_numeric (s : string) (c : ascii) (t : string) :
  Js.skip_space s = String c t ->
  Js.digit c = None -> c <> "-"%char -> c <> "+"%char ->
  Js.parseInt10 s = Js.NaN.
Proof.
  intros Hs Hd Hm Hp. unfold Js.parseInt10. rewrite Hs.
  assert (Hdig : Js.digits Js.NaN (String c t) = Js.NaN) by (simpl; now rewrite Hd).
  destruct (Ascii.eqb_spec c "-"%char) as [->|_]; [congruence|].
  destruct (Ascii.eqb_spec c "+"%char) as [->|_]; [congruence|].
  destruct c as [[] [] [] [] [] [] [] []]; try exact Hdig; congruence.
Qed.

Lemma parseInt10_empty : Js.parseInt10 "" = Js.NaN.
Proof. reflexivity. Qed.

(** White space is the white space of the language, not of ASCII: a
    no-break space before a number is skipped, a query of no-break spaces
    trims to nothing, and letters that share bytes with a space stay. *)
Example unicode_white_space_examples :
  Js.parseInt10 (Samples.nbsp ++ "7") = Js.Num 7 /\
  Js.parseInt10 (Samples.byte_order_mark ++ " 12") = Js.Num 12 /\
  Js.parseInt10 (Samples.per_mille ++ "7") = Js.NaN /\
  Js.trim Samples.nbsp = "" /\
  Js.trim (Samples.ideographic_space ++ "cats" ++ Samples.line_separator) = "cats" /\
  Js.trim (Samples.e_acute ++ " ") = Samples.e_acute /\
  Js.trim (" " ++ Samples.per_mille) = Samples.per_mille.
Proof. repeat split; reflexivity. Qed.

(** ** The search route *)

Section SearchRouteFacts.
Import Wire SearchRoute.

Lemma effective_start_absent (q : option string) :
  effective_start {| param_q := q; param_start := None |} = Js.Num 1.
Proof. reflexivity. Qed.

Lemma effective_start_cases (r : Request) :
  effective_start r =
  match startParam r with
  | Js.NaN => Js.Num 1
  | Js.Num n => if n <? 1 then Js.Num 1 else Js.Num n
  end.
Proof. unfold effective_start. destruct (startParam r); reflexivity. Qed.

Lemma startParam_present (q : option string) (s : string) :
  startParam {| param_q := q; param_start := Some s |} =
  if Js.truthy s then Js.parseInt10 s else Js.Num 1.
Proof. unfold startParam, Js.or_else. simpl. destruct (Js.truthy s); reflexivity. Qed.




End SearchRouteFacts.


(** White space before the number is that of the language: a no-break space
    is skipped like a blank, and the offset after it is used. *)
Remark start_after_no_break_space :
  SearchRoute.effective_start
    {| SearchRoute.param_q := Some "cats";
       SearchRoute.param_start := Some (Samples.nbsp ++ "7")%string |} = Js.Num 7
  /\ SearchRoute.effective_start
       {| SearchRoute.param_q := Some "cats";
          SearchRoute.param_start := Some (Samples.nbsp ++ "0")%string |} = Js.Num 1.
Proof. split; reflexivity. Qed.

Example effective_start_examples :
  let req s := {| SearchRoute.param_q := Some "cats"; SearchRoute.param_start := s |} in
  SearchRoute.effective_start (req None) = Js.Num 1 /\
  SearchRoute.effective_start (req (Some "")) = Js.Num 1 /\
  SearchRoute.effective_start (req (Some "abc")) = Js.Num 1 /\
  SearchRoute.effective_start (req (Some "0")) = Js.Num 1 /\
  SearchRoute.effective_start (req (Some "-5")) = Js.Num 1 /\
  SearchRoute.effective_start (req (Some "11")) = Js.Num 11 /\
  SearchRoute.effective_start (req (Some "21abc")) = Js.Num 21.
Proof. repeat split; reflexivity. Qed.

(** ** Deduplication by link *)

Section Dedupe.
Import Wire SearchPage.

Lemma dedupe_from_fresh (l : list SearchItem) :
  forall (seen : gset string) (x : string),
    x ∈ links (dedupe_from seen l) -> (x ∉ seen) /\ (x ∈ links l).
Proof.
  induction l as [|i rest IH]; intros seen x; simpl.
  - intros H. inversion H.
  - destruct (decide (link i ∈ seen)) as [Hin|Hnot]; simpl.
    + intros H. destruct (IH _ _ H). split; [assumption|]. now right.
    + intros H. apply elem_of_cons in H as [->|H].
      * split; [assumption|]. now left.
      * destruct (IH _ _ H) as [Hx ?]. split; [set_solver|]. now right.
Qed.

Lemma dedupe_from_NoDup (l : list SearchItem) :
  forall seen : gset string, NoDup (links (dedupe_from seen l)).
Proof.
  induction l as [|i rest IH]; intros seen; simpl.
  - constructor.
  - destruct (decide (link i ∈ seen)); simpl; [apply IH|].
    constructor; [|apply IH].
    intros H. apply dedupe_from_fresh in H as [H _]. set_solver.
Qed.

(** The filter of the source keeps exactly the first occurrences. *)
Lemma dedupe_from_keep_first (l : list SearchItem) :
  forall (seen : gset string) (earlier : list string),
    (forall x, x ∈ seen <-> x ∈ earlier) ->
    dedupe_from seen l = keep_first_after earlier l.
Proof.
  induction l as [|i rest IH]; intros seen earlier Hsame; simpl; [reflexivity|].
  destruct (decide (link i ∈ seen)) as [Hin|Hnot].
  - rewrite bool_decide_eq_true_2 by (now apply Hsame). now apply IH.
  - rewrite bool_decide_eq_false_2 by (now rewrite <- Hsame).
    f_equal. apply IH. intros x.
    rewrite elem_of_union, elem_of_singleton, elem_of_app, list_elem_of_singleton, Hsame.
    tauto.
Qed.

Lemma dedupe_keep_first (l : list SearchItem) : dedupe l = keep_first l.
Proof.
  apply dedupe_from_keep_first. intros x. split; intros H.
  - now apply not_elem_of_empty in H.
  - inversion H.
Qed.

Lemma dedupe_from_app (a b : list SearchItem) :
  forall seen : gset string,
    dedupe_from seen (a ++ b)
    = dedupe_from seen a ++ dedupe_from (list_to_set (links a) ∪ seen) b.
Proof.
  induction a as [|i rest IH]; intros seen; simpl.
  - f_equal. set_solver.
  - destruct (decide (link i ∈ seen)) as [Hin|Hnot]; simpl.
    + rewrite IH. do 2 f_equal. set_solver.
    + rewrite IH. do 3 f_equal. set_solver.
Qed.

Lemma dedupe_from_id (a : list SearchItem) :
  forall seen : gset string,
    NoDup (links a) -> (forall x, x ∈ links a -> x ∉ seen) ->
    dedupe_from seen a = a.
Proof.
  induction a as [|i rest IH]; intros seen Hnd Hfresh; simpl; [reflexivity|].
  simpl in Hnd. apply NoDup_cons in Hnd as [Hi Hnd].
  destruct (decide (link i ∈ seen)) as [Hin|Hnot].
  - exfalso. apply (Hfresh (link i)); [now left|assumption].
  - f_equal. apply IH; [assumption|].
    intros x Hx. rewrite elem_of_union, elem_of_singleton.
    intros [->|Hs]; [contradiction|].
    apply (Hfresh x); [now right|assumption].
Qed.

Lemma dedupe_NoDup (l : list SearchItem) : NoDup (links (dedupe l)).
Proof. apply dedupe_from_NoDup. Qed.

Lemma dedupe_id (l : list SearchItem) : NoDup (links l) -> dedupe l = l.
Proof. intros H. apply dedupe_from_id; [assumption|]. intros x _. apply not_elem_of_empty. Qed.

(** Appending to a list without duplicates leaves it in place and adds
    the entries whose link is new. *)
Lemma dedupe_append (prev new : list SearchItem) :
  NoDup (links prev) ->
  dedupe (prev ++ new)
  = prev ++ dedupe_from (list_to_set (links prev)) new.
Proof.
  intros Hnd. unfold dedupe. rewrite dedupe_from_app.
  rewrite (dedupe_from_id prev ∅ Hnd) by (intros x _; apply not_elem_of_empty).
  do 2 f_equal. set_solver.
Qed.

Lemma links_dedupe_from_set (l : list SearchItem) :
  forall seen : gset string,
    list_to_set (links (dedupe_from seen l)) ∪ seen
    = list_to_set (links l) ∪ seen.
Proof.
  induction l as [|i rest IH]; intros seen; simpl; [reflexivity|].
  destruct (decide (link i ∈ seen)) as [Hin|Hnot]; simpl.
  - rewrite IH. set_solver.
  - assert (E : forall A : gset string,
               {[link i]} ∪ A ∪ seen = A ∪ ({[link i]} ∪ seen)) by set_solver.
    rewrite !E. apply IH.
Qed.

(** Deduplicating an already deduplicated prefix again changes nothing. *)
Lemma dedupe_dedupe_app (a b : list SearchItem) :
  dedupe (dedupe a ++ b) = dedupe (a ++ b).
Proof.
  rewrite (dedupe_append (dedupe a) b (dedupe_NoDup a)).
  unfold dedupe at 3. rewrite dedupe_from_app. f_equal.
  f_equal. pose proof (links_dedupe_from_set a ∅) as H. unfold dedupe.
  set_solver.
Qed.

Lemma dedupe_from_length (l : list SearchItem) :
  forall seen : gset string, (length (dedupe_from seen l) <= length l)%nat.
Proof.
  induction l as [|i rest IH]; intros seen; simpl; [lia|].
  destruct (decide (link i ∈ seen)); simpl.
  - specialize (IH seen). lia.
  - specialize (IH ({[link i]} ∪ seen)). lia.
Qed.

End Dedupe.

(** ** [fetchResults] *)

Section FetchResults.
Import Wire SearchPage.

Lemma fetchResults_guarded (net : Request -> Outcome) (q : string) (o : Z)
    (append : bool) (s : State) :
  o > 100 ->
  fetchResults net q o append s
  = (finally (setHasMore false
       (if append then setLoadingMore false (setLoadingMore true s)
        else setLoading false (setLoading true s))), []).
Proof.
  intros Ho. unfold fetchResults, fetchResults_start.
  destruct (Z.gtb_spec o 100); [|lia]. destruct append; reflexivity.
Qed.

Lemma fetchResults_sent (net : Request -> Outcome) (q : string) (o : Z)
    (append : bool) (s : State) :
  o <= 100 ->
  fetchResults net q o append s
  = (fetchResults_settle o append (net {| req_q := q; req_start := o |})
       (if append then setLoadingMore true s else setLoading true s),
     [{| req_q := q; req_start := o |}]).
Proof.
  intros Ho. unfold fetchResults, fetchResults_start.
  destruct (Z.gtb_spec o 100); [lia|]. reflexivity.
Qed.

Lemma items_flag_up (append : bool) (s : State) :
  items (if append then setLoadingMore true s else setLoading true s) = items s.
Proof. destruct append; reflexivity. Qed.

Lemma start_on_ok (o : Z) (append : bool) (data : Body) (s : State) :
  start (on_ok o append data s) = o + Z.of_nat (length (newItems_of data)).
Proof. unfold on_ok. match goal with |- context [if ?c then _ else _] => destruct c end; reflexivity. Qed.

Lemma items_on_ok (o : Z) (append : bool) (data : Body) (s : State) :
  items (on_ok o append data s)
  = dedupe (if append then items s ++ newItems_of data else newItems_of data).
Proof. unfold on_ok. match goal with |- context [if ?c then setHasMore _ _ else _] => destruct c end; reflexivity. Qed.

Lemma totalResults_on_ok (o : Z) (append : bool) (data : Body) (s : State) :
  totalResults (on_ok o append data s) = total_of data.
Proof. unfold on_ok. match goal with |- context [if ?c then setHasMore _ _ else _] => destruct c end; reflexivity. Qed.

Lemma hasMore_on_ok (o : Z) (append : bool) (data : Body) (s : State) :
  hasMore (on_ok o append data s)
  = negb (Nat.eqb (length (newItems_of data)) 0
          || match total_of data with
             | Some t => Js.gt (Js.Num (o + Z.of_nat (length (newItems_of data)))) t
             | None => false
             end).
Proof. unfold on_ok. match goal with |- context [if ?c then setHasMore _ _ else _] => destruct c end; reflexivity. Qed.

(** What a successful fetch leaves behind, field by field. *)
Lemma settle_ok_fields (o : Z) (append : bool) (st : Z) (data : Body) (s : State) :
  ok st = true ->
  let s' := fetchResults_settle o append (Responded st (Some data)) s in
  items s' = dedupe (if append then items s ++ newItems_of data else newItems_of data)
  /\ start s' = o + Z.of_nat (length (newItems_of data))
  /\ totalResults s' = total_of data
  /\ hasMore s' = hasMore (on_ok o append data s).
Proof.
  intros Hok. unfold fetchResults_settle. rewrite Hok. simpl.
  rewrite items_on_ok, start_on_ok, totalResults_on_ok. auto.
Qed.

(** What a refused fetch leaves behind. *)
Lemma settle_not_ok_fields (o : Z) (append : bool) (st : Z) (data : Body) (s : State) :
  ok st = false ->
  let s' := fetchResults_settle o append (Responded st (Some data)) s in
  items s' = items s /\ hasMore s' = false /\ start s' = start s
  /\ error s'
     = Some (match Js.or_else (Js.or_else (error_details data) (error_message data))
                              (Some unknown_error) with
             | Some m => m
             | None => unknown_error
             end).
Proof. intros Hok. unfold fetchResults_settle. rewrite Hok. simpl. auto. Qed.

(** What a failed transport or an unreadable body leaves behind. *)
Lemma settle_catch_fields (o : Z) (append : bool) (out : Outcome) (s : State) :
  (out = Rejected \/ exists st, out = Responded st None) ->
  let s' := fetchResults_settle o append out s in
  items s' = items s /\ hasMore s' = false /\ error s' = Some connect_error.
Proof. intros [->|[st ->]]; simpl; auto. Qed.

Lemma merged_count_append (prev new : list SearchItem) (s s' : State) :
  items s = prev -> NoDup (links prev) -> items s' = dedupe (prev ++ new) ->
  merged_count true s s'
  = Z.of_nat (length (dedupe_from (list_to_set (links prev)) new)).
Proof.
  intros Hs Hnd Hs'. unfold merged_count. rewrite Hs, Hs', dedupe_append by assumption.
  rewrite length_app. lia.
Qed.

End FetchResults.

(** ** Pagination: the next offset and [hasMore] *)

Section Pagination.
Import Wire SearchPage.

(** Nothing is dropped only from a list of distinct, unseen links. *)
Lemma dedupe_from_full (l : list SearchItem) :
  forall seen : gset string,
    length (dedupe_from seen l) = length l ->
    NoDup (links l) /\ forall x, x ∈ links l -> x ∉ seen.
Proof.
  induction l as [|i rest IH]; intros seen Hlen; simpl in *.
  - split; [constructor|]. intros x Hx. inversion Hx.
  - destruct (decide (link i ∈ seen)) as [Hin|Hnot]; simpl in Hlen.
    + pose proof (dedupe_from_length rest seen). lia.
    + injection Hlen as Hlen. destruct (IH _ Hlen) as [Hnd Hfresh]. split.
      * constructor; [|assumption]. intros Hi. apply (Hfresh _ Hi). set_solver.
      * intros x Hx. apply elem_of_cons in Hx as [->|Hx]; [assumption|].
        specialize (Hfresh x Hx). set_solver.
Qed.

(** C1, as amended. After a successful page fetch at offset [o], merged
    into items that hold no link twice, the next offset is [o] plus the
    number of items the page returned, whether or not they were already
    present.  The number of newly merged items never exceeds that; the
    next offset is [o] plus the number of newly merged items exactly when
    every returned item is new (no link repeated within the page and, for
    a continuation page, none already in the session), and larger
    otherwise. *)
Theorem next_offset_counts_returned_items (net : Request -> Outcome) (q : string)
    (o : Z) (append : bool) (s : State) (st : Z) (data : Body) :
  o <= 100 ->
  net {| req_q := q; req_start := o |} = Responded st (Some data) ->
  ok st = true ->
  NoDup (links (items s)) ->
  let s' := fst (fetchResults net q o append s) in
  let n := Z.of_nat (length (newItems_of data)) in
  let all_new :=
    NoDup (links (newItems_of data))
    /\ (append = true ->
        forall x, x ∈ links (newItems_of data) -> x ∉ links (items s)) in
  start s' = o + n
  /\ merged_count append s s' <= n
  /\ (advances_by_merged o append s s' <-> all_new)
  /\ (~ all_new -> start s' > o + merged_count append s s').
Proof.
  intros Ho Hnet Hok Hnd s' n all_new. subst s' n all_new.
  rewrite fetchResults_sent, Hnet by assumption. simpl fst.
  destruct (settle_ok_fields o append st data
              (if append then setLoadingMore true s else setLoading true s) Hok)
    as (Hitems & Hstart & _).
  rewrite items_flag_up in Hitems.
  set (s' := fetchResults_settle o append (Responded st (Some data))
               (if append then setLoadingMore true s else setLoading true s)) in *.
  set (new := newItems_of data) in *.
  assert (Hk : exists seen : gset string,
             merged_count append s s' = Z.of_nat (length (dedupe_from seen new))
             /\ forall x, x ∈ seen <-> (append = true /\ x ∈ links (items s))).
  { destruct append.
    - exists (list_to_set (links (items s))). split.
      + apply (merged_count_append (items s) new s s' eq_refl Hnd Hitems).
      + intros x. rewrite elem_of_list_to_set. tauto.
    - exists ∅. split.
      + unfold merged_count. rewrite Hitems. unfold dedupe. simpl length. lia.
      + intros x. split; [intros H; now apply not_elem_of_empty in H|].
        intros [H _]. discriminate. }
  destruct Hk as (seen & Hk & Hseen).
  pose proof (dedupe_from_length new seen) as Hle.
  assert (Hiff : advances_by_merged o append s s' <->
                 NoDup (links new)
                 /\ (append = true -> forall x, x ∈ links new -> x ∉ links (items s))).
  { unfold advances_by_merged. rewrite Hstart, Hk. split.
    - intros Heq. assert (Hlen : length (dedupe_from seen new) = length new) by lia.
      destruct (dedupe_from_full new seen Hlen) as [Hnew Hfresh].
      split; [assumption|]. intros Ha x Hx Hin. apply (Hfresh x Hx).
      apply Hseen. auto.
    - intros [Hnew Hfresh]. rewrite dedupe_from_id; [reflexivity|assumption|].
      intros x Hx Hin. apply Hseen in Hin as [Ha Hin]. exact (Hfresh Ha x Hx Hin). }
  split; [exact Hstart|]. split; [rewrite Hk; lia|]. split; [exact Hiff|].
  intros Hnot.
  assert (Hne : start s' <> o + merged_count append s s').
  { intros Heq. apply Hnot, Hiff. exact Heq. }
  rewrite Hk in *. lia.
Qed.

(** C6. A fetch at an offset above 100 sends nothing and clears
    [hasMore]; it also lowers both loading flags and leaves the items, the
    error and the offset as they were. *)
Theorem offset_above_100_rejected_locally (net : Request -> Outcome) (q : string)
    (o : Z) (append : bool) (s : State) :
  o > 100 ->
  snd (fetchResults net q o append s) = []
  /\ hasMore (fst (fetchResults net q o append s)) = false
  /\ items (fst (fetchResults net q o append s)) = items s
  /\ start (fst (fetchResults net q o append s)) = start s
  /\ error (fst (fetchResults net q o append s)) = error s
  /\ loading (fst (fetchResults net q o append s)) = false
  /\ loadingMore (fst (fetchResults net q o append s)) = false.
Proof.
  intros Ho. rewrite fetchResults_guarded by assumption.
  destruct append; repeat split; reflexivity.
Qed.

(** C2, as amended. After a successful page fetch [hasMore] is false
    exactly when the page returned no item at all or the new offset
    exceeds the reported total, and true otherwise; a page that returned
    only items already present does not by itself end pagination.  A
    first page at offset 1 with 10 items and total "10" gives
    [hasMore = false] and offset 11. *)
Theorem hasMore_after_page (net : Request -> Outcome) (q : string)
    (o : Z) (append : bool) (s : State) (st : Z) (data : Body) :
  o <= 100 ->
  net {| req_q := q; req_start := o |} = Responded st (Some data) ->
  ok st = true ->
  let s' := fst (fetchResults net q o append s) in
  (hasMore s' = false <->
   (length (newItems_of data) = 0%nat
    \/ exists t, totalResults s' = Some (Js.Num t) /\ start s' > t))
  /\ (o = 1 -> length (newItems_of data) = 10%nat ->
      body_totalResults data = Some "10" ->
      hasMore s' = false /\ start s' = 11).
Proof.
  intros Ho Hnet Hok s'. subst s'.
  rewrite fetchResults_sent, Hnet by assumption. simpl fst.
  destruct (settle_ok_fields o append st data
              (if append then setLoadingMore true s else setLoading true s) Hok)
    as (_ & Hstart & Htotal & Hmore).
  rewrite Hmore, Hstart, Htotal, hasMore_on_ok. clear Hmore Hstart Htotal.
  split.
  - rewrite negb_false_iff, orb_true_iff, Nat.eqb_eq.
    split; (intros [H|H]; [now left|right]).
    + destruct (total_of data) as [[|t]|]; simpl in H; try discriminate.
      exists t. split; [reflexivity|]. now apply Z.gtb_gt in H.
    + destruct H as (t & -> & Ht). simpl. now apply Z.gtb_gt.
  - intros -> Hlen Htot. unfold total_of. rewrite Hlen, Htot. split; reflexivity.
Qed.

End Pagination.

Lemma next_offset_counts_returned_items_witness :
  let net := Samples.two_pages (Samples.page ["a"] None) (Samples.page ["a"; "b"] None) in
  let s' := fst (SearchPage.fetchResults net "cats" 2 true Samples.after_first_page) in
  SearchPage.start s' = 2 + 2
  /\ SearchPage.merged_count true Samples.after_first_page s' <= 2.
Proof.
  intros net s'.
  destruct (next_offset_counts_returned_items net "cats" 2 true
              Samples.after_first_page 200 (Samples.page ["a"; "b"] None))
    as (H1 & H2 & _).
  - lia.
  - reflexivity.
  - reflexivity.
  - vm_compute. repeat constructor. intros H. inversion H.
  - split; [exact H1|exact H2].
Defined.

(** C1 as stated fails: the session holds link [a] after the first page;
    the page requested at offset 2 returns [a] again together with [b];
    one item is merged and the next offset is 4, not 3. *)
Lemma next_offset_not_by_merged_count :
  let net := Samples.two_pages (Samples.page ["a"] None) (Samples.page ["a"; "b"] None) in
  let s' := fst (SearchPage.fetchResults net "cats" 2 true Samples.after_first_page) in
  SearchPage.merged_count true Samples.after_first_page s' = 1
  /\ SearchPage.start s' = 4
  /\ ~ SearchPage.advances_by_merged 2 true Samples.after_first_page s'.
Proof.
  intros net s'. split; [reflexivity|]. split; [reflexivity|].
  unfold SearchPage.advances_by_merged. vm_compute. discriminate.
Qed.

Lemma offset_above_100_rejected_locally_witness :
  snd (SearchPage.fetchResults (fun _ => Wire.Rejected) "cats" 101 true
         Samples.after_first_page) = []
  /\ SearchPage.hasMore (fst (SearchPage.fetchResults (fun _ => Wire.Rejected) "cats" 101 true
         Samples.after_first_page)) = false.
Proof.
  destruct (offset_above_100_rejected_locally (fun _ => Wire.Rejected) "cats" 101 true
              Samples.after_first_page) as (H1 & H2 & _); [lia|].
  split; [exact H1|exact H2].
Defined.

Lemma hasMore_after_page_witness :
  let data := Samples.page Samples.ten_links (Some "10") in
  let s' := fst (SearchPage.fetchResults (fun _ => Wire.Responded 200 (Some data))
                   "cats" 1 false
                   (SearchPage.handleSearch_reset (SearchPage.setQuery "cats" SearchPage.initial))) in
  SearchPage.hasMore s' = false /\ SearchPage.start s' = 11.
Proof.
  intros data s'.
  destruct (hasMore_after_page (fun _ => Wire.Responded 200 (Some data)) "cats" 1 false
              (SearchPage.handleSearch_reset (SearchPage.setQuery "cats" SearchPage.initial))
              200 data) as (_ & H); [lia|reflexivity|reflexivity|].
  apply H; reflexivity.
Defined.

(** C2 as stated fails: the page requested at offset 2 returns only link
    [a], which the session already holds; it yields no new item, no total
    is known, and [hasMore] is set to true. *)
Lemma hasMore_not_by_merged_count :
  let net := Samples.two_pages (Samples.page ["a"] None) (Samples.page ["a"] None) in
  let s' := fst (SearchPage.fetchResults net "cats" 2 true Samples.after_first_page) in
  SearchPage.merged_count true Samples.after_first_page s' = 0
  /\ SearchPage.hasMore s' = true
  /\ ~ SearchPage.hasMore_by_merged true Samples.after_first_page s'.
Proof.
  intros net s'. split; [reflexivity|]. split; [reflexivity|].
  intros [_ H]. assert (Hf : SearchPage.hasMore s' = false) by (apply H; left; reflexivity).
  vm_compute in Hf. discriminate.
Qed.

(** ** The accumulated items *)

Section Items.
Import Wire SearchPage.

Lemma items_settle_ok (f : OkFetch) (s : State) :
  ok (of_status f) = true ->
  items (settle_ok f s)
  = dedupe (if of_append f then items s ++ newItems_of (of_data f)
            else newItems_of (of_data f)).
Proof.
  intros Hok. unfold settle_ok.
  now destruct (settle_ok_fields (of_startIndex f) (of_append f) (of_status f)
                  (of_data f) s Hok) as (H & _).
Qed.

Lemma received_dedupe (fs : list OkFetch) :
  forall acc, dedupe (received fs (dedupe acc)) = dedupe (received fs acc).
Proof.
  induction fs as [|f fs' IH]; intros acc; simpl.
  - apply dedupe_id, dedupe_NoDup.
  - destruct (of_append f); [|reflexivity].
    rewrite <- (IH (dedupe acc ++ _)), dedupe_dedupe_app. apply IH.
Qed.

Lemma items_settle_all (fs : list OkFetch) :
  forall s,
    NoDup (links (items s)) ->
    Forall (fun f => ok (of_status f) = true) fs ->
    items (settle_all fs s) = dedupe (received fs (items s)).
Proof.
  induction fs as [|f fs' IH]; intros s Hnd Hok; simpl.
  - symmetry. now apply dedupe_id.
  - apply Forall_cons in Hok as [Hf Hok].
    rewrite IH; [|rewrite items_settle_ok by assumption; apply dedupe_NoDup|assumption].
    rewrite items_settle_ok by assumption. apply received_dedupe.
Qed.

Lemma received_all_append (fs : list OkFetch) :
  forall acc,
    Forall (fun f => of_append f = true) fs ->
    received fs acc = acc ++ concat (map (fun f => newItems_of (of_data f)) fs).
Proof.
  induction fs as [|f fs' IH]; intros acc Happ; simpl.
  - now rewrite app_nil_r.
  - apply Forall_cons in Happ as [Hf Happ]. rewrite Hf, IH by assumption.
    now rewrite <- app_assoc.
Qed.

(** C4. Along any sequence of successful page fetches the items carry no
    link twice, and they are the first occurrences, in arrival order, of
    everything the session was handed; when every fetch appends, what the
    session already held stays where it was. *)
Theorem items_unique_in_first_seen_order (fs : list OkFetch) (s : State) :
  NoDup (links (items s)) ->
  Forall (fun f => ok (of_status f) = true) fs ->
  NoDup (links (items (settle_all fs s)))
  /\ items (settle_all fs s) = keep_first (received fs (items s))
  /\ (Forall (fun f => of_append f = true) fs ->
      exists added,
        items (settle_all fs s) = items s ++ added
        /\ forall x, x ∈ links added -> x ∉ links (items s)).
Proof.
  intros Hnd Hok.
  pose proof (items_settle_all fs s Hnd Hok) as Hitems.
  split; [rewrite Hitems; apply dedupe_NoDup|].
  split; [rewrite Hitems; apply dedupe_keep_first|].
  intros Happ. rewrite Hitems, received_all_append, dedupe_append by assumption.
  eexists. split; [reflexivity|].
  intros x Hx. apply dedupe_from_fresh in Hx as [Hx _].
  now rewrite elem_of_list_to_set in Hx.
Qed.

(** Every event of the page keeps the items free of duplicate links. *)
Lemma step_items_NoDup (e : Event) (p : Page) :
  NoDup (links (items (state p))) ->
  NoDup (links (items (state (fst (step e p))))).
Proof.
  intros Hnd. destruct e as [text| | |i o]; simpl.
  - exact Hnd.
  - destruct (loading (state p) || negb (Js.truthy (Js.trim (query (state p)))));
      [exact Hnd|].
    unfold launch, fetchResults_start.
    destruct (1 >? 100); simpl; constructor.
  - destruct (may_load_more (state p)); [|exact Hnd].
    unfold launch, fetchResults_start.
    destruct (start (state p) >? 100); simpl; exact Hnd.
  - destruct (outstanding p !! i) as [f|]; [|exact Hnd]. simpl.
    destruct o as [|st [data|]]; simpl; try exact Hnd.
    destruct (ok st); simpl; [|exact Hnd].
    rewrite items_on_ok. apply dedupe_NoDup.
Qed.

End Items.

Lemma items_unique_in_first_seen_order_witness :
  let fs := [ {| SearchPage.of_startIndex := 1; SearchPage.of_append := false;
                 SearchPage.of_status := 200;
                 SearchPage.of_data := Samples.page ["a"; "b"; "a"] None |};
              {| SearchPage.of_startIndex := 4; SearchPage.of_append := true;
                 SearchPage.of_status := 200;
                 SearchPage.of_data := Samples.page ["b"; "c"] None |} ] in
  NoDup (SearchPage.links (SearchPage.items (SearchPage.settle_all fs SearchPage.initial)))
  /\ SearchPage.links (SearchPage.items (SearchPage.settle_all fs SearchPage.initial))
     = ["a"; "b"; "c"].
Proof.
  intros fs.
  destruct (items_unique_in_first_seen_order fs SearchPage.initial) as (H1 & H2 & _).
  - constructor.
  - repeat constructor.
  - split; [exact H1|]. rewrite H2. reflexivity.
Defined.

(** ** Gateway errors *)

Section GatewayErrors.
Import Wire SearchPage.

(** Every non-2xx answer of the search route carries a plain string in
    [error]; the upstream message, if any, sits in the top-level
    [details]. *)
Lemma route_error_is_string (cfg : SearchRoute.Config)
    (upstream : SearchRoute.UpstreamRequest -> Outcome) (r : SearchRoute.Request) :
  ok (SearchRoute.status (fst (SearchRoute.GET cfg upstream r))) = false ->
  exists text,
    body_error (SearchRoute.body (fst (SearchRoute.GET cfg upstream r))) = ErrString text.
Proof.
  unfold SearchRoute.GET.
  destruct (SearchRoute.API_KEY cfg) as [key|], (SearchRoute.CX cfg) as [cx|];
    simpl; eauto.
  destruct (Js.truthy key && Js.truthy cx); simpl; eauto.
  destruct (SearchRoute.param_q r) as [query|]; simpl; eauto.
  destruct (Js.truthy query); simpl; eauto.
  destruct (upstream _) as [|st [data|]]; simpl; eauto.
  destruct (ok st) eqn:Hst; simpl; [discriminate|].
  destruct (Js.json_status st); simpl; eauto.
Qed.

(** The route hands the upstream message on in [details]. *)
Lemma route_forwards_upstream_message (cfg : SearchRoute.Config)
    (upstream : SearchRoute.UpstreamRequest -> Outcome) (r : SearchRoute.Request)
    (key cx query : string) (st : Z) (data : Body) :
  SearchRoute.API_KEY cfg = Some key -> SearchRoute.CX cfg = Some cx ->
  Js.truthy key = true -> Js.truthy cx = true ->
  SearchRoute.param_q r = Some query -> Js.truthy query = true ->
  upstream {| SearchRoute.up_key := key; SearchRoute.up_cx := cx;
              SearchRoute.up_q := query; SearchRoute.up_num := 10;
              SearchRoute.up_start := SearchRoute.effective_start r |}
  = Responded st (Some data) ->
  ok st = false -> Js.json_status st = true ->
  fst (SearchRoute.GET cfg upstream r)
  = {| SearchRoute.status := st;
       SearchRoute.body := SearchRoute.error_body "Search API error" (error_message data) |}.
Proof.
  intros Hk Hc Hkt Hct Hq Hqt Hup Hst Hjs. unfold SearchRoute.GET.
  rewrite Hk, Hc, Hkt, Hct, Hq, Hqt, Hup, Hst. simpl. rewrite Hjs. reflexivity.
Qed.

(** C3, what the code does. Whatever non-2xx answer the search route gives
    to a fetch of the page, the page shows the generic fallback and not a
    message of the gateway; it clears [hasMore] and leaves the items and
    the offset as they were. *)
Theorem gateway_error_shown_as_unknown (cfg : SearchRoute.Config)
    (upstream : SearchRoute.UpstreamRequest -> Outcome)
    (q : string) (o : Z) (append : bool) (s : State) (st : Z) (b : Body) :
  o <= 100 ->
  EndToEnd.via_route cfg upstream {| req_q := q; req_start := o |}
  = Responded st (Some b) ->
  ok st = false ->
  let s' := fst (fetchResults (EndToEnd.via_route cfg upstream) q o append s) in
  error s' = Some unknown_error
  /\ hasMore s' = false
  /\ items s' = items s
  /\ start s' = start s.
Proof.
  intros Ho Hout Hst s'. subst s'.
  rewrite fetchResults_sent, Hout by assumption. simpl fst.
  destruct (settle_not_ok_fields o append st b
              (if append then setLoadingMore true s else setLoading true s) Hst)
    as (Hi & Hm & Hs & He).
  rewrite items_flag_up in Hi.
  assert (Hstr : exists text, body_error b = ErrString text).
  { unfold EndToEnd.via_route in Hout. injection Hout as Hs' Hb. subst st b.
    now apply route_error_is_string. }
  destruct Hstr as [text Htext].
  repeat split; try assumption.
  - rewrite He. unfold error_details, error_message. rewrite Htext. reflexivity.
  - rewrite Hs. destruct append; reflexivity.
Qed.

(** With a body of the shape the page declares, [{error: {message,
    details?}}], a continuation fetch that is refused shows [details],
    else [message], else the fallback, and keeps the items. *)
Lemma refused_fetch_declared_shape (net : Request -> Outcome) (q : string) (o : Z)
    (s : State) (st : Z) (b : Body) (m d : option string) :
  o <= 100 ->
  net {| req_q := q; req_start := o |} = Responded st (Some b) ->
  ok st = false ->
  body_error b = ErrObject m d ->
  let s' := fst (fetchResults net q o true s) in
  error s'
  = Some (if Js.truthy_opt d then default unknown_error d
          else if Js.truthy_opt m then default unknown_error m
          else unknown_error)
  /\ hasMore s' = false
  /\ items s' = items s.
Proof.
  intros Ho Hnet Hst Hb s'. subst s'.
  rewrite fetchResults_sent, Hnet by assumption. simpl fst.
  destruct (settle_not_ok_fields o true st b (setLoadingMore true s) Hst)
    as (Hi & Hm & _ & He).
  repeat split; try assumption.
  rewrite He. unfold error_details, error_message, Js.or_else. rewrite Hb.
  destruct d as [[|? ?]|], m as [[|? ?]|]; reflexivity.
Qed.

End GatewayErrors.

(** The upstream search API refuses with status 403 and the message
    "Quota exceeded" during a continuation fetch: the route answers 403
    with that message in [details], and the page shows "An unknown error
    occurred.". *)
Lemma gateway_error_shown_as_unknown_witness :
  let net := EndToEnd.via_route Samples.config Samples.upstream_refuses in
  net {| SearchPage.req_q := "cats"; SearchPage.req_start := 2 |}
  = Wire.Responded 403
      (Some {| Wire.body_items := None; Wire.body_totalResults := None;
               Wire.body_error := Wire.ErrString "Search API error";
               Wire.body_details := Some "Quota exceeded" |})
  /\ SearchPage.error (fst (SearchPage.fetchResults net "cats" 2 true Samples.after_first_page))
     = Some "An unknown error occurred."
  /\ SearchPage.hasMore (fst (SearchPage.fetchResults net "cats" 2 true Samples.after_first_page))
     = false
  /\ SearchPage.items (fst (SearchPage.fetchResults net "cats" 2 true Samples.after_first_page))
     = SearchPage.items Samples.after_first_page.
Proof.
  intros net. split; [reflexivity|].
  destruct (gateway_error_shown_as_unknown Samples.config Samples.upstream_refuses
              "cats" 2 true Samples.after_first_page 403
              (SearchRoute.error_body "Search API error" (Some "Quota exceeded")))
    as (He & Hm & Hi & _); [lia|reflexivity|reflexivity|].
  split; [exact He|]. split; [exact Hm|exact Hi].
Defined.

(** ** [hasMore = false] ends the session's pagination *)

Section Terminal.
Import Wire SearchPage.

Lemma may_load_more_true (s : State) :
  may_load_more s = true ->
  hasMore s = true /\ loadingMore s = false /\ loading s = false.
Proof.
  unfold may_load_more. rewrite !andb_true_iff, !negb_true_iff. tauto.
Qed.










Lemma loadMore_no_more (net : Request -> Outcome) (s : State) :
  hasMore s = false -> loadMore net s = (s, []).
Proof. intros Hm. unfold loadMore, may_load_more. now rewrite Hm. Qed.


End Terminal.



(** ** The per-image load state *)

Section ImageLoadStates.
Import ImageGrid.

Lemma flag_insert (m : gmap string bool) (l : string) :
  flag (<[l := true]> m) l = true.
Proof. unfold flag. now rewrite lookup_insert_eq. Qed.

Lemma flag_insert_ne (m : gmap string bool) (l l' : string) (b : bool) :
  l <> l' -> flag (<[l := b]> m) l' = flag m l'.
Proof. intros H. unfold flag. now rewrite lookup_insert_ne. Qed.

Lemma flag_delete (m : gmap string bool) (l : string) :
  flag (delete l m) l = inherited l.
Proof. unfold flag. now rewrite lookup_delete_eq. Qed.

Lemma flag_delete_ne (m : gmap string bool) (l l' : string) :
  l <> l' -> flag (delete l m) l' = flag m l'.
Proof. intros H. unfold flag. now rewrite lookup_delete_ne. Qed.

(** Rewrites the flags that are known, through [insert] and [delete]. *)
Ltac flags :=
  simpl;
  repeat (first [ rewrite flag_insert
                | rewrite flag_delete
                | match goal with H : flag _ _ = _ |- _ => rewrite H end
                | match goal with H : inherited _ = _ |- _ => rewrite H end ];
          simpl).

(** A handler of one link leaves the flags of every other link alone. *)
Lemma onError_in_other (v : State) (l l' : string) (s : State) :
  l <> l' -> load_state (onError_in v l s) l' = load_state s l'.
Proof.
  intros Hne. unfold load_state, onError_in, enableProxy, markFailed.
  destruct (flag (useProxyMap v) l); simpl;
    destruct (flag (failedMap s) l), (flag (useProxyMap s) l); simpl;
    now rewrite ?flag_insert_ne, ?flag_delete_ne by assumption.
Qed.

Lemma load_failure_other (l l' : string) (s : State) :
  l <> l' -> load_state (load_failure l s) l' = load_state s l'.
Proof.
  intros Hne. unfold load_failure, onError.
  destruct (flag (failedMap s) l); [reflexivity|]. now apply onError_in_other.
Qed.

(** With every failure handled by a fresh render, each failure moves the
    link one step along [Direct → ProxyRetry → Failed]. *)
Lemma load_failure_phase (l : string) (s : State) :
  phase (load_failure l s) l = next (phase s l).
Proof.
  unfold phase, load_failure, onError, onError_in, enableProxy, markFailed.
  destruct (flag (failedMap s) l) eqn:Hf; [now flags|].
  destruct (flag (useProxyMap s) l) eqn:Hp; now flags.
Qed.

(** [Failed] is terminal: a further failure changes nothing at all. *)
Lemma load_failure_failed (l : string) (s : State) :
  phase s l = Failed -> load_failure l s = s.
Proof.
  unfold phase, load_failure.
  destruct (flag (failedMap s) l); [reflexivity|].
  destruct (flag (useProxyMap s) l); discriminate.
Qed.

(** The two setters are idempotent. *)
Lemma markFailed_idem (l : string) (s : State) :
  markFailed l (markFailed l s) = markFailed l s.
Proof.
  unfold markFailed.
  destruct (flag (failedMap s) l) eqn:Hf, (flag (useProxyMap s) l) eqn:Hp; flags;
    try reflexivity;
    destruct (inherited l); simpl; now rewrite ?delete_delete_eq.
Qed.

Lemma enableProxy_idem (l : string) (s : State) :
  enableProxy l (enableProxy l s) = enableProxy l s.
Proof.
  unfold enableProxy.
  destruct (flag (useProxyMap s) l) eqn:Hp; now flags.
Qed.

(** Two images of one link (grid and lightbox) failing within the same
    render: the second run of the handler changes nothing. *)
Lemma onError_same_render (view : State) (l : string) (s : State) :
  onError_in view l (onError_in view l s) = onError_in view l s.
Proof.
  unfold onError_in.
  destruct (flag (useProxyMap view) l); simpl;
    [apply markFailed_idem|apply enableProxy_idem].
Qed.

Lemma handle_same_render (l : string) (g : Grid) :
  handle (Fails l) (handle (Fails l) g) = handle (Fails l) g.
Proof.
  simpl. destruct (flag (failedMap (view g)) l) eqn:Hf; simpl; rewrite Hf;
    [reflexivity|].
  now rewrite onError_same_render.
Qed.

Lemma handle_other (e : GridEvent) (l : string) (g : Grid) :
  (forall x, e = Fails x -> x <> l) ->
  load_state (cur (handle e g)) l = load_state (cur g) l.
Proof.
  intros Hne. destruct e as [x|]; simpl; [|reflexivity].
  destruct (flag (failedMap (view g)) x); [reflexivity|].
  simpl. apply onError_in_other. now apply Hne.
Qed.

Lemma initial_coherent (l : string) : coherent initial_grid l.
Proof.
  unfold coherent, initial_grid, initial, flag. simpl.
  rewrite lookup_empty. destruct (inherited l); [left|right; left]; auto.
Qed.

Lemma enableProxy_state (l : string) (s : State) :
  load_state (enableProxy l s) l
  = {| usingProxy := true; failed := flag (failedMap s) l |}.
Proof.
  unfold load_state, enableProxy. simpl.
  destruct (flag (useProxyMap s) l) eqn:Hp; [now rewrite Hp|now rewrite flag_insert].
Qed.

Lemma markFailed_state (l : string) (s : State) :
  load_state (markFailed l s) l
  = {| usingProxy := flag (useProxyMap s) l && inherited l; failed := true |}.
Proof.
  unfold load_state, markFailed. simpl. f_equal.
  - destruct (flag (useProxyMap s) l) eqn:Hp; simpl; [apply flag_delete|exact Hp].
  - destruct (flag (failedMap s) l) eqn:Hf; [exact Hf|apply flag_insert].
Qed.

(** The flags of link [l] after a failure of [l], by what is rendered. *)
Lemma fails_state (l : string) (g : Grid) :
  view (handle (Fails l) g) = view g
  /\ load_state (cur (handle (Fails l) g)) l
     = if flag (failedMap (view g)) l then load_state (cur g) l
       else if flag (useProxyMap (view g)) l
            then {| usingProxy := flag (useProxyMap (cur g)) l && inherited l;
                    failed := true |}
            else {| usingProxy := true; failed := flag (failedMap (cur g)) l |}.
Proof.
  simpl. destruct (flag (failedMap (view g)) l); [auto|]. simpl. split; [reflexivity|].
  unfold onError_in. destruct (flag (useProxyMap (view g)) l); simpl;
    [apply markFailed_state|apply enableProxy_state].
Qed.

(** What a failure of link [l] does to a coherent grid, by what is
    rendered for [l]. *)
Lemma fails_coherent (l : string) (g : Grid) :
  coherent g l ->
  coherent (handle (Fails l) g) l
  /\ phase (cur (handle (Fails l) g)) l = next (phase (view g) l)
  /\ (inherited l = false ->
      load_state (cur (handle (Fails l) g)) l
      = match phase (view g) l with
        | Direct => {| usingProxy := true; failed := false |}
        | ProxyRetry | Failed => {| usingProxy := false; failed := true |}
        end).
Proof.
  intros Hc. destruct (fails_state l g) as [Hv Hs].
  unfold coherent in Hc. simpl in Hc.
  destruct Hc as [(Hfv & Hfc & Hpv & Hpc)|[(Hi & Hfv & Hpv & Hfc)|(Hi & Hfv & Hpv & Hc)]];
    rewrite Hfv, ?Hpv in Hs; unfold load_state in Hs; injection Hs as Hp Hf;
    unfold coherent, phase, load_state; cbn [handle] in *;
    rewrite Hv, Hp, Hf, Hfv, ?Hpv; simpl.
  - rewrite Hfc, Hpc. split; [left; auto|]. split; [reflexivity|]. now intros ->.
  - split; [right; left; auto|]. rewrite Hfc. auto.
  - rewrite Hi, andb_false_r. split; [right; right; auto 10|]. auto.
Qed.

Lemma handle_coherent (e : GridEvent) (l : string) (g : Grid) :
  coherent g l -> coherent (handle e g) l.
Proof.
  intros Hc. destruct e as [x|].
  - destruct (decide (x = l)) as [->|Hne]; [now apply fails_coherent|].
    assert (Ho : load_state (cur (handle (Fails x) g)) l = load_state (cur g) l)
      by (apply handle_other; intros ? [= <-]; assumption).
    unfold load_state in Ho. injection Ho as Hp Hf.
    assert (Hv : view (handle (Fails x) g) = view g)
      by (simpl; now destruct (flag (failedMap (view g)) x)).
    unfold coherent in *. cbn [handle] in *. rewrite Hv, Hp, Hf. exact Hc.
  - unfold coherent in *. simpl.
    destruct Hc as [(Hfv & Hfc & Hpv & Hpc)|[(Hi & Hfv & Hpv & Hfc)|(Hi & Hfv & Hpv & Hc)]].
    + left. auto.
    + destruct (flag (useProxyMap (cur g)) l) eqn:Hpc.
      * right; right. auto 10.
      * right; left. auto.
    + destruct Hc as [[Hfc Hpc]|[Hfc Hpc]].
      * right; right. auto 10.
      * left. rewrite Hi. auto.
Qed.

Lemma handles_coherent (es : list GridEvent) (l : string) :
  forall g, coherent g l -> coherent (handles es g) l.
Proof.
  induction es as [|e es' IH]; intros g Hc; simpl; [assumption|].
  apply IH. now apply handle_coherent.
Qed.

(** The proxy flag of a link rises only while the state is at [Direct]. *)
Lemma proxy_rises_bound (l : string) (es : list GridEvent) :
  forall g, coherent g l ->
    (proxy_rises l es g <= match phase (cur g) l with Direct => 1 | _ => 0 end)%nat.
Proof.
  induction es as [|e es' IH]; intros g Hc; simpl.
  - destruct (phase (cur g) l); lia.
  - specialize (IH (handle e g) (handle_coherent e l g Hc)).
    assert (Hstate : exists p' f',
               load_state (cur (handle e g)) l = {| usingProxy := p'; failed := f' |}
               /\ (negb (flag (useProxyMap (cur g)) l) && p' = true ->
                   flag (failedMap (cur g)) l = false /\ f' = false)
               /\ (negb (flag (useProxyMap (cur g)) l) && p' = false ->
                   f' = false -> p' = false ->
                   flag (failedMap (cur g)) l = false
                   /\ flag (useProxyMap (cur g)) l = false)).
    { assert (Hother : (forall x, e = Fails x -> x <> l) ->
                exists p' f',
                  load_state (cur (handle e g)) l = {| usingProxy := p'; failed := f' |}
                  /\ (negb (flag (useProxyMap (cur g)) l) && p' = true ->
                      flag (failedMap (cur g)) l = false /\ f' = false)
                  /\ (negb (flag (useProxyMap (cur g)) l) && p' = false ->
                      f' = false -> p' = false ->
                      flag (failedMap (cur g)) l = false
                      /\ flag (useProxyMap (cur g)) l = false)).
      { intros Hne.
        exists (flag (useProxyMap (cur g)) l), (flag (failedMap (cur g)) l).
        split; [now apply handle_other|].
        rewrite andb_negb_l. split; [discriminate|]. auto. }
      destruct e as [x|]; [|apply Hother; intros x H; discriminate].
      destruct (decide (x = l)) as [->|Hne];
        [|apply Hother; intros y [= <-]; assumption].
      clear Hother. destruct (fails_state l g) as [_ Hs]. rewrite Hs. clear Hs.
      unfold coherent in Hc. simpl in Hc. unfold load_state.
      destruct Hc as [(Hfv & Hfc & Hpv & Hpc)|[(Hi & Hfv & Hpv & Hfc)|(Hi & Hfv & Hpv & Hc)]].
      + rewrite Hfv. do 2 eexists. split; [reflexivity|]. rewrite Hfc.
        split; [rewrite andb_negb_l; discriminate|]. intros _ H. discriminate.
      + rewrite Hfv, Hpv. do 2 eexists. split; [reflexivity|]. rewrite Hfc.
        split; [auto|]. intros _ _ H. discriminate.
      + rewrite Hfv, Hpv, Hi, andb_false_r. do 2 eexists. split; [reflexivity|].
        split; [rewrite andb_false_r; discriminate|]. intros _ H. discriminate. }
    destruct Hstate as (p' & f' & Hs & Hrise & Hstay).
    unfold load_state in Hs. injection Hs as Hp' Hf'.
    unfold phase in *. rewrite Hp', Hf' in *.
    destruct (negb (flag (useProxyMap (cur g)) l) && p') eqn:Hr.
    + destruct (Hrise eq_refl) as [-> ->].
      apply andb_true_iff in Hr as [Hr ->]. apply negb_true_iff in Hr. rewrite Hr.
      simpl in *. lia.
    + destruct f'; [simpl in *; destruct (flag (failedMap (cur g)) l), (flag (useProxyMap (cur g)) l); lia|].
      destruct p'; [simpl in *; destruct (flag (failedMap (cur g)) l), (flag (useProxyMap (cur g)) l); lia|].
      destruct (Hstay eq_refl eq_refl eq_refl) as [-> ->]. simpl in *. lia.
Qed.

(** Two failures of a link, each followed by a render, end with the
    placeholder rendered. *)
Lemma two_rendered_failures (l : string) (g : Grid) :
  coherent g l ->
  flag (failedMap (view (handles [Fails l; Renders; Fails l; Renders] g))) l = true
  /\ phase (cur (handles [Fails l; Renders; Fails l; Renders] g)) l = Failed.
Proof.
  intros Hc. cbn [handles].
  destruct (fails_coherent l g Hc) as (Hc1 & Hph & _).
  set (g1 := handle Renders (handle (Fails l) g)).
  assert (Hcg1 : coherent g1 l) by (apply handle_coherent; exact Hc1).
  assert (Hv1 : phase (view g1) l = next (phase (view g) l)) by exact Hph.
  destruct (fails_coherent l g1 Hcg1) as (_ & Hph1 & _).
  rewrite Hv1 in Hph1.
  assert (H : next (next (phase (view g) l)) = Failed)
    by (destruct (phase (view g) l); reflexivity).
  rewrite H in Hph1.
  change (view (handle Renders (handle (Fails l) g1)))
    with (cur (handle (Fails l) g1)).
  change (cur (handle Renders (handle (Fails l) g1)))
    with (cur (handle (Fails l) g1)).
  split; [|exact Hph1].
  unfold phase in Hph1.
  destruct (flag (failedMap (cur (handle (Fails l) g1))) l); [reflexivity|].
  destruct (flag (useProxyMap (cur (handle (Fails l) g1))) l); discriminate.
Qed.

(** C5, as amended. In every state the grid can reach: a load failure of
    an image rendered as a direct request sets the proxy flag, a load
    failure of an image rendered through the proxy sets [failed] and
    clears the proxy flag, and once the placeholder is rendered nothing
    changes any more; a second failure handled within the same render
    changes nothing further; two failures each followed by a render reach
    [Failed], where a third changes nothing; other links are untouched;
    and over any further sequence of events the proxy flag of a link is
    set at most once. *)
Theorem image_load_state_is_one_way (history later : list GridEvent) (l : string) :
  let g := handles history initial_grid in
  let g2 := handles [Fails l; Renders; Fails l; Renders] g in
  phase (cur (handle (Fails l) g)) l = next (phase (view g) l)
  /\ (inherited l = false ->
      load_state (cur (handle (Fails l) g)) l
      = match phase (view g) l with
        | Direct => {| usingProxy := true; failed := false |}
        | ProxyRetry | Failed => {| usingProxy := false; failed := true |}
        end)
  /\ handle (Fails l) (handle (Fails l) g) = handle (Fails l) g
  /\ phase (cur g2) l = Failed
  /\ handle (Fails l) g2 = g2
  /\ (forall l', l <> l' ->
      load_state (cur (handle (Fails l) g)) l' = load_state (cur g) l')
  /\ (proxy_rises l later g <= 1)%nat
  /\ (proxy_rises l (history ++ later) initial_grid <= 1)%nat.
Proof.
  intros g g2.
  assert (Hc : coherent g l) by apply handles_coherent, initial_coherent.
  destruct (fails_coherent l g Hc) as (Hc1 & Hph & Hst).
  destruct (two_rendered_failures l g Hc) as [Hfv2 Hph2]. fold g2 in Hfv2, Hph2.
  clearbody g2.
  split; [exact Hph|]. split; [exact Hst|].
  split; [apply handle_same_render|]. split; [exact Hph2|].
  split; [cbn [handle]; now rewrite Hfv2|].
  split.
  { intros l' Hne. apply handle_other. intros x [= <-]. exact Hne. }
  split.
  - pose proof (proxy_rises_bound l later g Hc). destruct (phase (cur g) l); lia.
  - pose proof (proxy_rises_bound l (history ++ later) initial_grid (initial_coherent l)).
    destruct (phase (cur initial_grid) l); lia.
Qed.

(** C5 as stated fails: the grid image and the lightbox image of one link
    both fail before the component renders again; both handlers find the
    proxy not yet enabled, and after these two failures the link is at
    [ProxyRetry], not at [Failed]. *)
Lemma two_failures_in_one_render :
  phase (cur (handles [Fails "x"; Fails "x"] initial_grid)) "x" = ProxyRetry
  /\ ~ second_failure_fails initial_grid "x".
Proof.
  split; [reflexivity|]. unfold second_failure_fails. vm_compute. discriminate.
Qed.

(** The raw handler, were it still attached after the link has failed,
    would set the proxy flag again: it is the placeholder rendered in
    place of the [img] that makes [Failed] terminal. *)
Remark onError_after_failed :
  let s := load_failures ["x"; "x"] initial in
  load_state s "x" = {| usingProxy := false; failed := true |}
  /\ load_state (onError "x" s) "x" = {| usingProxy := true; failed := true |}
  /\ rendered s {| title := "t"; link := "x"; thumbnail := None |} true = None.
Proof. repeat split; reflexivity. Qed.

(** A link named like a member of [Object.prototype] shows the
    placeholder from the start. *)
Remark inherited_link_starts_failed :
  rendered initial {| title := "t"; link := "constructor"; thumbnail := None |} true
  = None.
Proof. reflexivity. Qed.

Example three_failures :
  let item := {| title := "t"; link := "x"; thumbnail := Some "x-small" |} in
  let s1 := load_failure "x" initial in
  let s2 := load_failure "x" s1 in
  let s3 := load_failure "x" s2 in
  phase initial "x" = Direct /\ rendered initial item true = Some (Origin "x-small")
  /\ phase s1 "x" = ProxyRetry /\ rendered s1 item true = Some (ViaProxy "x-small")
  /\ rendered s1 item false = Some (ViaProxy "x")
  /\ phase s2 "x" = Failed /\ rendered s2 item true = None
  /\ s3 = s2.
Proof. repeat split; reflexivity. Qed.

End ImageLoadStates.

(** ** The image proxy *)

Section ImageProxyFacts.
Import ImageProxy.

Variable parse : string -> option URL.

Lemma allowed_protocol_spec (p : string) :
  allowed_protocol p = true <-> p = "http:" \/ p = "https:".
Proof.
  unfold allowed_protocol.
  destruct (decide (p = "http:")); [tauto|].
  destruct (decide (p = "https:")); [tauto|].
  split; [discriminate|tauto].
Qed.

Lemma validate_none (url : string) :
  validate parse url = None <->
  (parse url = None
   \/ exists parsed, parse url = Some parsed
        /\ protocol parsed <> "http:" /\ protocol parsed <> "https:").
Proof.
  unfold validate. destruct (parse url) as [parsed|].
  - destruct (allowed_protocol (protocol parsed)) eqn:Ha.
    + apply allowed_protocol_spec in Ha. split; [discriminate|].
      intros [H|(p' & Hp & H1 & H2)]; [discriminate|].
      injection Hp as <-. tauto.
    + split; [|reflexivity]. intros _. right. exists parsed.
      split; [reflexivity|].
      split; intros Heq;
        (assert (allowed_protocol (protocol parsed) = true)
           by (apply allowed_protocol_spec; auto)); congruence.
  - split; [now left|reflexivity].
Qed.

Lemma timed_out_abort (u : Upstream) :
  timed_out u = true <-> await_fetch u = AbortError.
Proof.
  destruct u as [t st txt ct c|t|]; simpl;
    try (destruct (t <? timeout_ms); simpl; split; congruence).
  tauto.
Qed.

(** A target that passes validation is fetched, once. *)
Lemma GET_valid_fetches (net : string -> Upstream) (url : string) (parsed : URL) :
  Js.truthy url = true -> validate parse url = Some parsed ->
  snd (GET parse net (Some url)) = [url].
Proof. intros Ht Hv. unfold GET. now rewrite Ht, Hv. Qed.

(** C8. A request whose [u] is absent, does not parse as a URL, or parses
    with a protocol other than [http:] and [https:] is answered with
    status 400 and nothing is fetched upstream. *)
Theorem proxy_rejects_invalid_target (net : string -> Upstream) (u : option string) :
  (u = None
   \/ exists url, u = Some url
        /\ (parse url = None
            \/ exists parsed, parse url = Some parsed
                 /\ protocol parsed <> "http:" /\ protocol parsed <> "https:")) ->
  status (fst (GET parse net u)) = 400
  /\ snd (GET parse net u) = []
  /\ exists msg, body (fst (GET parse net u)) = Json msg None None.
Proof.
  intros [->|(url & -> & Hbad)]; simpl; [eauto|].
  destruct (Js.truthy url); simpl; [|eauto].
  apply validate_none in Hbad. rewrite Hbad. simpl. eauto.
Qed.

Lemma json_status_max (st : Z) :
  Js.json_status (Z.max 400 st) = (st <=? 599).
Proof.
  unfold Js.json_status.
  destruct (Z.leb_spec st 599); destruct (Z.leb_spec 200 (Z.max 400 st));
    destruct (Z.leb_spec (Z.max 400 st) 599);
    destruct (Z.eqb_spec (Z.max 400 st) 204); destruct (Z.eqb_spec (Z.max 400 st) 205);
    destruct (Z.eqb_spec (Z.max 400 st) 304); simpl; try reflexivity; lia.
Qed.

(** C9, as amended. For a valid target: an answer in time with a
    non-success status [st] not above 599 is turned into status
    [max 400 st] with a body carrying [st] and its status text; a timeout
    is turned into the error "Upstream timeout", which no other outcome
    produces; and every upstream problem, a status above 599 included,
    gives a status of at least 400. *)
Theorem proxy_reports_upstream_problems (net : string -> Upstream) (url : string)
    (parsed : URL) :
  Js.truthy url = true ->
  validate parse url = Some parsed ->
  let resp := fst (GET parse net (Some url)) in
  (forall t st txt ct c,
      net url = Answers t st txt ct c -> t < timeout_ms -> ok st = false ->
      st <= 599 ->
      status resp = Z.max 400 st
      /\ body resp = Json "Upstream fetch failed" (Some st) (Some txt))
  /\ (timed_out (net url) = true ->
      status resp = 502 /\ body resp = Json "Upstream timeout" None None)
  /\ (timed_out (net url) = false ->
      body resp <> Json "Upstream timeout" None None)
  /\ (upstream_problem (net url) = true -> 400 <= status resp).
Proof.
  intros Ht Hv resp. subst resp. unfold GET. rewrite Ht, Hv. simpl.
  split; [|split; [|split]].
  - intros t st txt ct c Hnet Hlt Hok Hst. rewrite Hnet. simpl.
    destruct (Z.ltb_spec t timeout_ms); [|lia]. rewrite Hok. simpl.
    rewrite json_status_max. destruct (Z.leb_spec st 599); [auto|lia].
  - intros Hto. apply timed_out_abort in Hto. rewrite Hto. auto.
  - intros Hto.
    destruct (net url) as [t st txt ct c|t|]; simpl in *; try discriminate;
      apply negb_false_iff in Hto; rewrite Hto; [|discriminate].
    destruct (ok st); simpl; [discriminate|].
    destruct (Js.json_status (Z.max 400 st)); discriminate.
  - intros Hp.
    destruct (net url) as [t st txt ct c|t|]; simpl in *.
    + destruct (t <? timeout_ms); simpl in *; [|lia].
      rewrite Hp. simpl.
      destruct (Js.json_status (Z.max 400 st)); simpl; lia.
    + destruct (t <? timeout_ms); simpl; lia.
    + lia.
Qed.

(** An upstream status above 599 is not forwarded: building the answer
    throws, and the proxy answers 502 "Proxy fetch error". *)
Lemma proxy_status_above_599 (net : string -> Upstream) (url : string) (parsed : URL)
    (t st : Z) (txt : string) (ct : option string) (c : string) :
  Js.truthy url = true -> validate parse url = Some parsed ->
  net url = Answers t st txt ct c -> t < timeout_ms -> 599 < st ->
  fst (GET parse net (Some url))
  = {| status := 502; headers := CORS_HEADERS;
       body := Json "Proxy fetch error" None None |}.
Proof.
  intros Ht Hv Hnet Hlt Hst. unfold GET. rewrite Ht, Hv, Hnet. simpl.
  destruct (Z.ltb_spec t timeout_ms); [|lia].
  assert (Hok : ok st = false).
  { unfold ok. destruct (Z.leb_spec st 299); [lia|]. apply andb_false_r. }
  rewrite Hok. simpl. rewrite json_status_max.
  destruct (Z.leb_spec st 599); [lia|reflexivity].
Qed.

End ImageProxyFacts.

Lemma proxy_rejects_invalid_target_witness :
  ImageProxy.status
    (fst (ImageProxy.GET ImageProxy.scheme_parse (fun _ => ImageProxy.Silent)
            (Some "ftp://example.com/x.png"))) = 400
  /\ snd (ImageProxy.GET ImageProxy.scheme_parse (fun _ => ImageProxy.Silent)
            (Some "ftp://example.com/x.png")) = [].
Proof.
  destruct (proxy_rejects_invalid_target ImageProxy.scheme_parse
              (fun _ => ImageProxy.Silent) (Some "ftp://example.com/x.png"))
    as (H1 & H2 & _).
  - right. exists "ftp://example.com/x.png". split; [reflexivity|].
    right. exists {| ImageProxy.protocol := "ftp:" |}.
    split; [reflexivity|]. split; discriminate.
  - split; [exact H1|exact H2].
Defined.

Lemma proxy_reports_upstream_problems_witness :
  let net := fun _ : string => ImageProxy.Answers 120 301 "Moved Permanently" None "" in
  let resp := fst (ImageProxy.GET ImageProxy.scheme_parse net
                     (Some "https://example.com/x.png")) in
  ImageProxy.status resp = 400
  /\ ImageProxy.body resp
     = ImageProxy.Json "Upstream fetch failed" (Some 301) (Some "Moved Permanently").
Proof.
  intros net resp.
  destruct (proxy_reports_upstream_problems ImageProxy.scheme_parse net
              "https://example.com/x.png" {| ImageProxy.protocol := "https:" |})
    as (H & _); [reflexivity|reflexivity|].
  apply (H 120 301 "Moved Permanently" None ""); [reflexivity|reflexivity|reflexivity|lia].
Defined.

(** C9 as stated fails: the upstream answers 999 "Request denied" in
    time; the proxy answers 502 "Proxy fetch error", neither status 999
    nor a body carrying the upstream status. *)
Lemma proxy_status_999_not_forwarded :
  let net := fun _ : string => ImageProxy.Answers 120 999 "Request denied" None "" in
  let resp := fst (ImageProxy.GET ImageProxy.scheme_parse net
                     (Some "https://example.com/x.png")) in
  ImageProxy.ok 999 = false
  /\ ImageProxy.status resp = 502
  /\ ImageProxy.body resp = ImageProxy.Json "Proxy fetch error" None None
  /\ ~ (ImageProxy.status resp = Z.max 400 999
        /\ ImageProxy.body resp
           = ImageProxy.Json "Upstream fetch failed" (Some 999) (Some "Request denied")).
Proof.
  intros net resp. repeat split. intros [H _]. vm_compute in H. discriminate.
Qed.

Example proxy_examples :
  let get net u := fst (ImageProxy.GET ImageProxy.scheme_parse net u) in
  let target := Some "https://example.com/x.png" in
  ImageProxy.status (get (fun _ => ImageProxy.Silent) None) = 400
  /\ ImageProxy.status (get (fun _ => ImageProxy.Silent) (Some "")) = 400
  /\ ImageProxy.status (get (fun _ => ImageProxy.Silent) (Some "no scheme")) = 400
  /\ ImageProxy.body (get (fun _ => ImageProxy.Silent) target)
     = ImageProxy.Json "Upstream timeout" None None
  /\ ImageProxy.body (get (fun _ => ImageProxy.Answers 10000 200 "OK" None "") target)
     = ImageProxy.Json "Upstream timeout" None None
  /\ ImageProxy.body (get (fun _ => ImageProxy.Breaks 5) target)
     = ImageProxy.Json "Proxy fetch error" None None
  /\ ImageProxy.status (get (fun _ => ImageProxy.Answers 5 404 "Not Found" None "") target) = 404
  /\ ImageProxy.status (get (fun _ => ImageProxy.Answers 5 101 "Switching" None "") target) = 400
  /\ get (fun _ => ImageProxy.Answers 5 200 "OK" None "png") target
     = {| ImageProxy.status := 200;
          ImageProxy.headers :=
            [("content-type", "application/octet-stream");
             ("cache-control", "public, max-age=86400, stale-while-revalidate=604800");
             ("Access-Control-Allow-Origin", "*");
             ("Access-Control-Allow-Methods", "GET,OPTIONS")];
          ImageProxy.body := ImageProxy.Stream "png" |}.
Proof. repeat split; reflexivity. Qed.

(** * Further properties of the code *)

(** ** Offsets as decimal strings *)

Section Decimal.
Import Session.

Lemma digit_of_char (d : Z) :
  0 <= d < 10 -> Js.digit (ascii_of_nat (Z.to_nat (48 + d))) = Some d.
Proof.
  intros Hd.
  assert (H : d = 0 \/ d = 1 \/ d = 2 \/ d = 3 \/ d = 4 \/ d = 5 \/ d = 6
              \/ d = 7 \/ d = 8 \/ d = 9) by lia.
  repeat (destruct H as [->|H]; [reflexivity|]). subst d. reflexivity.
Qed.

Lemma digits_cons (x : Js.number) (d : Z) (s : string) :
  0 <= d < 10 ->
  Js.digits x (String (ascii_of_nat (Z.to_nat (48 + d))) s)
  = Js.digits (Js.Num (10 * value x + d)) s.
Proof.
  intros Hd. cbn [Js.digits]. rewrite (digit_of_char d Hd). now destruct x.
Qed.

(** Reading back what [pos_digits] wrote shifts the number read so far
    by a power of ten and adds the number written. *)
Lemma digits_pos_digits (f : nat) :
  forall n, 0 <= n < 10 ^ Z.of_nat (S f) ->
    exists p, forall x s,
      Js.digits x (Js.pos_digits (S f) n s) = Js.digits (Js.Num (p * value x + n)) s.
Proof.
  induction f as [|f IH]; intros n Hn.
  - exists 10. intros x s. cbn [Js.pos_digits].
    assert (Hq : n / 10 = 0) by (apply Z.div_small; simpl in Hn; lia).
    rewrite Hq. simpl (0 =? 0). cbv iota.
    rewrite digits_cons by (apply Z.mod_pos_bound; lia).
    rewrite Z.mod_small by (simpl in Hn; lia). reflexivity.
  - destruct (Z.eqb_spec (n / 10) 0) as [Hq|Hq].
    + exists 10. intros x s. cbn [Js.pos_digits]. rewrite Hq. simpl (0 =? 0). cbv iota.
      rewrite digits_cons by (apply Z.mod_pos_bound; lia).
      assert (n < 10) by (destruct (Z.lt_ge_cases n 10); [assumption|];
                          assert (1 <= n / 10) by (apply Z.div_le_lower_bound; lia); lia).
      rewrite Z.mod_small by lia. reflexivity.
    + destruct (IH (n / 10)) as [p Hp].
      { split; [apply Z.div_pos; lia|].
        apply Z.div_lt_upper_bound; [lia|].
        rewrite <- Z.pow_succ_r by lia. rewrite <- Nat2Z.inj_succ. lia. }
      exists (10 * p). intros x s.
      change (Js.pos_digits (S (S f)) n s)
        with (let acc' := String (ascii_of_nat (Z.to_nat (48 + n mod 10))) s in
              if n / 10 =? 0 then acc' else Js.pos_digits (S f) (n / 10) acc').
      cbv zeta. destruct (Z.eqb_spec (n / 10) 0); [contradiction|].
      rewrite Hp, digits_cons by (apply Z.mod_pos_bound; lia).
      cbn [value]. do 2 f_equal.
      pose proof (Z.div_mod n 10). lia.
Qed.

Lemma pos_digits_head (f : nat) :
  forall n s, exists c t d,
    Js.pos_digits (S f) n s = String c t /\ Js.digit c = Some d.
Proof.
  induction f as [|f IH]; intros n s.
  - assert (Hd : 0 <= n mod 10 < 10) by (apply Z.mod_pos_bound; lia).
    cbn [Js.pos_digits]. destruct (n / 10 =? 0);
      (do 3 eexists; split; [reflexivity|apply digit_of_char; exact Hd]).
  - change (Js.pos_digits (S (S f)) n s)
      with (let acc' := String (ascii_of_nat (Z.to_nat (48 + n mod 10))) s in
            if n / 10 =? 0 then acc' else Js.pos_digits (S f) (n / 10) acc').
    cbv zeta. destruct (n / 10 =? 0); [|apply IH].
    assert (Hd : 0 <= n mod 10 < 10) by (apply Z.mod_pos_bound; lia).
    do 3 eexists; split; [reflexivity|apply digit_of_char; exact Hd].
Qed.

Lemma parseInt10_digit_head (c : ascii) (t : string) (d : Z) :
  Js.digit c = Some d -> Js.parseInt10 (String c t) = Js.digits Js.NaN (String c t).
Proof.
  intros H.
  destruct c as [[] [] [] [] [] [] [] []];
    try (vm_compute in H; discriminate); reflexivity.
Qed.

Lemma parseInt10_pos_digits (f : nat) (n : Z) :
  0 <= n < 10 ^ Z.of_nat (S f) ->
  Js.parseInt10 (Js.pos_digits (S f) n "") = Js.Num n.
Proof.
  intros Hn. destruct (pos_digits_head f n "") as (c & t & d & Heq & Hd).
  rewrite Heq, (parseInt10_digit_head c t d Hd), <- Heq.
  destruct (digits_pos_digits f n Hn) as [p Hp]. rewrite Hp. cbn.
  f_equal. lia.
Qed.

(** Writing an integer into a URL and reading it back with [parseInt]
    gives the integer again. *)
Lemma parseInt10_toString (n : Z) : Js.parseInt10 (Js.toString n) = Js.Num n.
Proof.
  unfold Js.toString. destruct (Z.ltb_spec n 0) as [Hneg|Hpos].
  - assert (Hf : exists f, Z.to_nat (- n) = S f).
    { exists (Nat.pred (Z.to_nat (- n))). lia. }
    destruct Hf as [f Hf]. rewrite Hf.
    change (Js.parseInt10 (String "-" (Js.pos_digits (S f) (- n) "")))
      with (Js.neg (Js.digits Js.NaN (Js.pos_digits (S f) (- n) ""))).
    assert (Hb : 0 <= - n < 10 ^ Z.of_nat (S f)).
    { split; [lia|]. rewrite <- Hf, Z2Nat.id by lia.
      apply Z.pow_gt_lin_r; lia. }
    pose proof (parseInt10_pos_digits f (- n) Hb) as Hp.
    destruct (pos_digits_head f (- n) "") as (c & t & d & Heq & Hd).
    rewrite Heq in Hp |- *. rewrite (parseInt10_digit_head c t d Hd) in Hp.
    rewrite Hp. cbn. f_equal. lia.
  - apply parseInt10_pos_digits. split; [assumption|].
    rewrite Nat2Z.inj_succ, Z2Nat.id by assumption.
    pose proof (Z.pow_gt_lin_r 10 (Z.succ n)). lia.
Qed.

Lemma toString_truthy (n : Z) : Js.truthy (Js.toString n) = true.
Proof.
  unfold Js.toString. destruct (n <? 0); [reflexivity|].
  destruct (pos_digits_head (Z.to_nat n) n "") as (c & t & d & Heq & _).
  now rewrite Heq.
Qed.

End Decimal.

(** ** The search route, all paths *)

Section SearchRouteMore.
Import Wire SearchRoute.

(** The route's own view of its inputs. *)
Lemma GET_unusable (cfg : Config) (upstream : UpstreamRequest -> Outcome) (r : Request) :
  Js.truthy_opt (API_KEY cfg) && Js.truthy_opt (CX cfg) = false ->
  GET cfg upstream r
  = ({| status := 500; body := error_body "API configuration missing" None |}, []).
Proof.
  unfold GET. destruct (API_KEY cfg) as [key|], (CX cfg) as [cx|]; simpl;
    try reflexivity.
  intros ->. reflexivity.
Qed.

Lemma GET_no_query (cfg : Config) (upstream : UpstreamRequest -> Outcome) (r : Request) :
  Js.truthy_opt (API_KEY cfg) && Js.truthy_opt (CX cfg) = true ->
  Js.truthy_opt (param_q r) = false ->
  GET cfg upstream r
  = ({| status := 400; body := error_body "Missing search query" None |}, []).
Proof.
  unfold GET. destruct (API_KEY cfg) as [key|], (CX cfg) as [cx|]; simpl;
    try discriminate; try (rewrite andb_false_r; discriminate).
  intros ->. destruct (param_q r) as [query|]; simpl; [|reflexivity].
  now intros ->.
Qed.

Lemma GET_usable (cfg : Config) (upstream : UpstreamRequest -> Outcome) (r : Request) :
  Js.truthy_opt (API_KEY cfg) && Js.truthy_opt (CX cfg) = true ->
  Js.truthy_opt (param_q r) = true ->
  exists key cx query,
    API_KEY cfg = Some key /\ CX cfg = Some cx /\ param_q r = Some query
    /\ let url := {| up_key := key; up_cx := cx; up_q := query; up_num := 10;
                     up_start := effective_start r |} in
       GET cfg upstream r
       = (match upstream url with
          | Responded st (Some data) =>
              if negb (ok st) then
                if Js.json_status st then
                  {| status := st;
                     body := error_body "Search API error" (error_message data) |}
                else
                  {| status := 500; body := error_body "Internal server error" None |}
              else {| status := 200; body := data |}
          | Responded _ None | Rejected =>
              {| status := 500; body := error_body "Internal server error" None |}
          end, [url]).
Proof.
  unfold GET. destruct (API_KEY cfg) as [key|], (CX cfg) as [cx|]; simpl;
    try discriminate; try (rewrite andb_false_r; discriminate).
  intros Hc. destruct (param_q r) as [query|]; simpl; [|discriminate].
  intros Hq. exists key, cx, query. rewrite Hc, Hq. auto.
Qed.

Lemma effective_start_number (r : Request) :
  exists n, effective_start r = Js.Num n /\ 1 <= n.
Proof.
  rewrite effective_start_cases. destruct (startParam r) as [|n].
  - exists 1. split; [reflexivity|lia].
  - destruct (Z.ltb_spec n 1); [exists 1|exists n]; split; try reflexivity; lia.
Qed.

(** X1. The route contacts the upstream API at most once, and exactly when
    both credentials and the query are non-empty; without credentials it
    answers 500 whatever the query, without a query 400. *)
Theorem route_contacts_upstream_when_usable (cfg : Config)
    (upstream : UpstreamRequest -> Outcome) (r : Request) :
  let usable :=
    Js.truthy_opt (API_KEY cfg) && Js.truthy_opt (CX cfg)
    && Js.truthy_opt (param_q r) in
  (length (snd (GET cfg upstream r)) = if usable then 1%nat else 0%nat)
  /\ (Js.truthy_opt (API_KEY cfg) && Js.truthy_opt (CX cfg) = false ->
      status (fst (GET cfg upstream r)) = 500)
  /\ (Js.truthy_opt (API_KEY cfg) && Js.truthy_opt (CX cfg) = true ->
      Js.truthy_opt (param_q r) = false ->
      status (fst (GET cfg upstream r)) = 400).
Proof.
  intros usable. subst usable.
  destruct (Js.truthy_opt (API_KEY cfg) && Js.truthy_opt (CX cfg)) eqn:Hc.
  - destruct (Js.truthy_opt (param_q r)) eqn:Hq; simpl.
    + destruct (GET_usable cfg upstream r Hc Hq) as (key & cx & query & _ & _ & _ & ->).
      repeat split; discriminate.
    + rewrite (GET_no_query cfg upstream r Hc Hq). repeat split; discriminate.
  - simpl. rewrite (GET_unusable cfg upstream r Hc). repeat split; discriminate.
Qed.

(** X2. Every upstream request asks for image results 10 at a time with the
    caller's query and a start that is a number, never below 1; a start
    parameter that parses to an integer from 1 to [2 ^ 53], the range a
    double holds exactly, is used as it is. *)
Theorem upstream_request_shape (cfg : Config)
    (upstream : UpstreamRequest -> Outcome) (r : Request) (u : UpstreamRequest) :
  u ∈ snd (GET cfg upstream r) ->
  up_num u = 10
  /\ param_q r = Some (up_q u)
  /\ API_KEY cfg = Some (up_key u) /\ CX cfg = Some (up_cx u)
  /\ (exists n, up_start u = Js.Num n /\ 1 <= n)
  /\ (forall s n, param_start r = Some s -> Js.parseInt10 s = Js.Num n ->
      1 <= n <= 2 ^ 53 ->
      up_start u = Js.Num n).
Proof.
  intros Hu.
  destruct (Js.truthy_opt (API_KEY cfg) && Js.truthy_opt (CX cfg)) eqn:Hc;
    [|rewrite (GET_unusable cfg upstream r Hc) in Hu; inversion Hu].
  destruct (Js.truthy_opt (param_q r)) eqn:Hq;
    [|rewrite (GET_no_query cfg upstream r Hc Hq) in Hu; inversion Hu].
  destruct (GET_usable cfg upstream r Hc Hq) as (key & cx & query & Hk & Hx & Hqq & Heq).
  rewrite Heq in Hu. simpl in Hu. apply list_elem_of_singleton in Hu. subst u. simpl.
  repeat split; try assumption.
  - apply effective_start_number.
  - intros s n Hs Hp Hn. destruct r as [pq ps]. simpl in Hs. subst ps.
    rewrite effective_start_cases, startParam_present.
    destruct (Js.truthy s) eqn:Ht.
    + rewrite Hp. destruct (Z.ltb_spec n 1); [lia|reflexivity].
    + destruct s; [|discriminate]. discriminate.
Qed.

(** X3. The route answers with a 2xx status exactly when the upstream API
    did so with a readable body; the status is then 200 and the body is
    the upstream body, untouched. *)
Theorem route_succeeds_iff_upstream_does (cfg : Config)
    (upstream : UpstreamRequest -> Outcome) (r : Request) :
  ok (status (fst (GET cfg upstream r))) = true <->
  exists u st data,
    snd (GET cfg upstream r) = [u]
    /\ upstream u = Responded st (Some data) /\ ok st = true
    /\ fst (GET cfg upstream r) = {| status := 200; body := data |}.
Proof.
  destruct (Js.truthy_opt (API_KEY cfg) && Js.truthy_opt (CX cfg)) eqn:Hc.
  2:{ rewrite (GET_unusable cfg upstream r Hc). simpl.
      split; [discriminate|]. intros (u & st & data & H & _). discriminate. }
  destruct (Js.truthy_opt (param_q r)) eqn:Hq.
  2:{ rewrite (GET_no_query cfg upstream r Hc Hq). simpl.
      split; [discriminate|]. intros (u & st & data & H & _). discriminate. }
  destruct (GET_usable cfg upstream r Hc Hq) as (key & cx & query & _ & _ & _ & Heq).
  rewrite Heq. clear Heq. simpl.
  set (url := {| up_key := key; up_cx := cx; up_q := query; up_num := 10;
                 up_start := effective_start r |}).
  split.
  - intros Hok. exists url. destruct (upstream url) as [|st [data|]] eqn:Hup;
      try discriminate.
    destruct (ok st) eqn:Hst; cbn [negb] in Hok.
    + exists st, data. auto.
    + destruct (Js.json_status st); cbn [fst status] in Hok;
        [congruence|discriminate].
  - intros (u & st & data & Hu & Hup & Hst & Hresp).
    injection Hu as <-. rewrite Hup, Hst in *. reflexivity.
Qed.


End SearchRouteMore.

(** ** The page and the route together *)

Section PageThroughRoute.
Import Wire SearchPage.

(** The route reads the offset the page wrote, raised to 1 if below. *)
Lemma route_reads_page_offset (q : option string) (o : Z) :
  SearchRoute.effective_start
    {| SearchRoute.param_q := q; SearchRoute.param_start := Some (Js.toString o) |}
  = Js.Num (Z.max 1 o).
Proof.
  rewrite effective_start_cases, startParam_present, toString_truthy,
    parseInt10_toString.
  destruct (Z.ltb_spec o 1); f_equal; lia.
Qed.

(** X5. A page fetch at an offset from 1 to 100, served by the route with
    credentials in place: the upstream API is asked once, for the page's
    query and offset, 10 results; and when it answers 2xx with a body the
    page ends in the state it would reach had it received that body
    directly with status 200. *)
Theorem page_fetch_through_route (cfg : SearchRoute.Config)
    (upstream : SearchRoute.UpstreamRequest -> Outcome)
    (key cx q : string) (o : Z) (append : bool) (s : State) :
  SearchRoute.API_KEY cfg = Some key -> SearchRoute.CX cfg = Some cx ->
  Js.truthy key = true -> Js.truthy cx = true -> Js.truthy q = true ->
  1 <= o <= 100 ->
  let u := {| SearchRoute.up_key := key; SearchRoute.up_cx := cx;
              SearchRoute.up_q := q; SearchRoute.up_num := 10;
              SearchRoute.up_start := Js.Num o |} in
  snd (SearchRoute.GET cfg upstream
         {| SearchRoute.param_q := Some q;
            SearchRoute.param_start := Some (Js.toString o) |}) = [u]
  /\ (forall st data,
        upstream u = Responded st (Some data) -> ok st = true ->
        fetchResults (EndToEnd.via_route cfg upstream) q o append s
        = fetchResults (fun _ => Responded 200 (Some data)) q o append s).
Proof.
  intros Hk Hx Hkt Hxt Hq Ho u.
  set (r := {| SearchRoute.param_q := Some q;
               SearchRoute.param_start := Some (Js.toString o) |}).
  assert (Hget : SearchRoute.GET cfg upstream r
                 = (match upstream u with
                    | Responded st (Some data) =>
                        if negb (ok st) then
                          if Js.json_status st then
                            {| SearchRoute.status := st;
                               SearchRoute.body :=
                                 SearchRoute.error_body "Search API error" (error_message data) |}
                          else
                            {| SearchRoute.status := 500;
                               SearchRoute.body :=
                                 SearchRoute.error_body "Internal server error" None |}
                        else {| SearchRoute.status := 200; SearchRoute.body := data |}
                    | Responded _ None | Rejected =>
                        {| SearchRoute.status := 500;
                           SearchRoute.body :=
                             SearchRoute.error_body "Internal server error" None |}
                    end, [u])).
  { unfold SearchRoute.GET. rewrite Hk, Hx, Hkt, Hxt. simpl. rewrite Hq.
    unfold r. rewrite route_reads_page_offset.
    replace (Z.max 1 o) with o by lia. reflexivity. }
  split; [now rewrite Hget|].
  intros st data Hup Hst.
  rewrite !fetchResults_sent by lia. f_equal. f_equal.
  unfold EndToEnd.via_route. cbn [req_q req_start]. fold r.
  rewrite Hget. cbn [fst]. rewrite Hup, Hst. reflexivity.
Qed.

End PageThroughRoute.

(** ** Searching *)

Section Searching.
Import Wire SearchPage Session.




(** X7. A search starts from scratch: with a query that is not blank it sends
    one request, for the trimmed query at offset 1, and the state it ends
    in depends on the query and the answer only, not on earlier items,
    error, offset, total or flags.  Unless the answer is a 2xx with a
    readable body, no item is left, earlier ones included. *)
Theorem search_starts_from_scratch (net : Request -> Outcome) (s1 s2 : State) :
  query s1 = query s2 ->
  Js.truthy (Js.trim (query s1)) = true ->
  let r := {| req_q := Js.trim (query s1); req_start := 1 |} in
  handleSearch net s1 = handleSearch net s2
  /\ snd (handleSearch net s1) = [r]
  /\ (match net r with
      | Responded st (Some _) => ok st = false
      | Responded _ None | Rejected => True
      end ->
      items (fst (handleSearch net s1)) = []
      /\ hasMore (fst (handleSearch net s1)) = false
      /\ start (fst (handleSearch net s1)) = 1).
Proof.
  intros Hq Ht r. subst r. unfold handleSearch. rewrite <- Hq, Ht. simpl negb. cbv iota.
  rewrite !fetchResults_sent by lia. simpl snd.
  split; [|split; [reflexivity|]].
  - f_equal. destruct s1 as [q1 i1 l1 lm1 e1 st1 h1 t1], s2 as [q2 i2 l2 lm2 e2 st2 h2 t2].
    simpl in Hq. subst q2. simpl. unfold fetchResults_settle.
    destruct (net _) as [|st [data|]]; try reflexivity.
    destruct (ok st); [|reflexivity].
    unfold on_ok. cbn.
    match goal with |- context [if ?c then _ else _] => destruct c end; reflexivity.
  - simpl fst. unfold fetchResults_settle.
    destruct (net _) as [|st [data|]]; [intros _; now simpl| |intros _; now simpl].
    intros ->. now simpl.
Qed.

(** X8. A fetch whose connection fails or whose body cannot be read shows
    "Could not connect to the search service.", stops pagination and
    leaves items, offset and total as they were, with both loading flags
    down. *)
Theorem transport_failure_keeps_results (net : Request -> Outcome) (q : string)
    (o : Z) (append : bool) (s : State) :
  o <= 100 ->
  (net {| req_q := q; req_start := o |} = Rejected
   \/ exists st, net {| req_q := q; req_start := o |} = Responded st None) ->
  let s' := fst (fetchResults net q o append s) in
  error s' = Some connect_error
  /\ hasMore s' = false
  /\ items s' = items s /\ start s' = start s /\ totalResults s' = totalResults s
  /\ loading s' = false /\ loadingMore s' = false.
Proof.
  intros Ho Hnet s'. subst s'. rewrite fetchResults_sent by assumption.
  destruct Hnet as [->|[st ->]]; destruct append; repeat split; reflexivity.
Qed.

(** X9. A total that is absent, empty or not a number never ends pagination:
    [hasMore] then only tells whether the page brought any item. *)
Theorem unknown_total_never_stops (net : Request -> Outcome) (q : string)
    (o : Z) (append : bool) (s : State) (st : Z) (data : Body) :
  o <= 100 ->
  net {| req_q := q; req_start := o |} = Responded st (Some data) ->
  ok st = true ->
  (body_totalResults data = None
   \/ exists t, body_totalResults data = Some t /\ Js.parseInt10 t = Js.NaN) ->
  hasMore (fst (fetchResults net q o append s))
  = negb (Nat.eqb (length (newItems_of data)) 0).
Proof.
  intros Ho Hnet Hok Htot.
  rewrite fetchResults_sent, Hnet by assumption. simpl fst.
  destruct (settle_ok_fields o append st data
              (if append then setLoadingMore true s else setLoading true s) Hok)
    as (_ & _ & _ & ->).
  rewrite hasMore_on_ok. unfold total_of.
  destruct Htot as [->|(t & -> & Hnan)]; [now rewrite orb_false_r|].
  destruct (Js.truthy t); rewrite ?Hnan; simpl; now rewrite orb_false_r.
Qed.

(** X10. Deduplication loses no link: after a successful fetch the links shown
    are those shown before (when appending) together with those of the
    page. *)
Theorem links_after_fetch (net : Request -> Outcome) (q : string)
    (o : Z) (append : bool) (s : State) (st : Z) (data : Body) (x : string) :
  o <= 100 ->
  net {| req_q := q; req_start := o |} = Responded st (Some data) ->
  ok st = true ->
  x ∈ links (items (fst (fetchResults net q o append s))) <->
  (append = true /\ x ∈ links (items s)) \/ x ∈ links (newItems_of data).
Proof.
  intros Ho Hnet Hok.
  rewrite fetchResults_sent, Hnet by assumption. simpl fst.
  destruct (settle_ok_fields o append st data
              (if append then setLoadingMore true s else setLoading true s) Hok)
    as (-> & _).
  rewrite items_flag_up.
  assert (Hset : forall l, x ∈ links (dedupe l) <-> x ∈ links l).
  { intros l. pose proof (links_dedupe_from_set l ∅) as H. fold (dedupe l) in H.
    rewrite <- (elem_of_list_to_set (C := gset string) x (links (dedupe l))).
    rewrite <- (elem_of_list_to_set (C := gset string) x (links l)).
    set_solver. }
  rewrite Hset. destruct append.
  - unfold links. rewrite map_app, elem_of_app. tauto.
  - split; [auto|]. intros [[H _]|H]; [discriminate|assumption].
Qed.

End Searching.

(** ** The page as an event system: what every run keeps *)

Section Runs.
Import Wire SearchPage Session.

Lemma launch_cases (q : string) (o : Z) (append : bool) (p : Page) (s : State) :
  (o > 100
   /\ launch q o append p s
      = ({| state := fst (fetchResults_start q o append s);
            outstanding := outstanding p |}, [])
   /\ hasMore (fst (fetchResults_start q o append s)) = false
   /\ loading (fst (fetchResults_start q o append s)) = false
   /\ loadingMore (fst (fetchResults_start q o append s)) = false)
  \/ (o <= 100
      /\ launch q o append p s
         = ({| state := if append then setLoadingMore true s else setLoading true s;
               outstanding :=
                 outstanding p ++ [{| p_startIndex := o; p_append := append |}] |},
            [{| req_q := q; req_start := o |}])).
Proof.
  unfold launch, fetchResults_start. destruct (Z.gtb_spec o 100).
  - left. split; [lia|]. destruct append; auto.
  - right. split; [lia|]. reflexivity.
Qed.

Lemma start_fetchResults_start (q : string) (o : Z) (append : bool) (s : State) :
  start (fst (fetchResults_start q o append s)) = start s.
Proof. unfold fetchResults_start. destruct (o >? 100), append; reflexivity. Qed.

Lemma start_settle (o : Z) (append : bool) (out : Outcome) (s : State) :
  1 <= o -> 1 <= start s -> 1 <= start (fetchResults_settle o append out s).
Proof.
  intros Ho Hs. unfold fetchResults_settle.
  destruct out as [|st [data|]]; simpl; try assumption.
  destruct (ok st); simpl; [|assumption].
  rewrite start_on_ok. lia.
Qed.

Lemma step_offsets (e : Event) (p : Page) :
  offsets_ok p ->
  offsets_ok (fst (step e p))
  /\ Forall (fun r => 1 <= req_start r <= 100) (snd (step e p)).
Proof.
  intros [Hs Hout]. destruct e as [text| | |i o]; simpl.
  - split; [split; assumption|constructor].
  - destruct (loading (state p) || negb (Js.truthy (Js.trim (query (state p)))));
      [split; [split; assumption|constructor]|].
    destruct (launch_cases (Js.trim (query (state p))) 1 false p
                (handleSearch_reset (state p))) as [(Hgt & _)|(_ & ->)]; [lia|].
    simpl. split; [split; [cbn; lia|]|].
    + apply Forall_app. split; [assumption|]. repeat constructor. simpl. lia.
    + repeat constructor; simpl; lia.
  - destruct (may_load_more (state p)); [|split; [split; assumption|constructor]].
    destruct (launch_cases (Js.trim (query (state p))) (start (state p)) true p (state p))
      as [(_ & -> & _)|(Hle & ->)]; cbn [fst snd]; unfold offsets_ok;
      cbn [state outstanding].
    + rewrite start_fetchResults_start. split; [split; assumption|constructor].
    + split; [split; [assumption|]|].
      * apply Forall_app. split; [assumption|]. repeat constructor. simpl. lia.
      * repeat constructor; simpl; lia.
  - destruct (outstanding p !! i) as [f|] eqn:Hi; [|split; [split; assumption|constructor]].
    simpl. split; [|constructor]. split.
    + apply start_settle; [|assumption].
      eapply Forall_lookup_1 in Hout; eauto.
    + now apply Forall_delete.
Qed.

(** X11. Whatever the user does and whatever the network answers, from the
    moment the page loads: every request asks for an offset from 1 to
    100, and the offset the page holds never drops below 1. *)
Theorem offsets_stay_within_1_and_100 (es : list Event) :
  Forall (fun r => 1 <= req_start r <= 100) (snd (run es initial_page))
  /\ 1 <= start (state (fst (run es initial_page))).
Proof.
  assert (H : forall p, offsets_ok p ->
            Forall (fun r => 1 <= req_start r <= 100) (snd (run es p))
            /\ offsets_ok (fst (run es p))).
  { induction es as [|e es' IH]; intros p Hp; simpl.
    - split; [constructor|assumption].
    - destruct (step_offsets e p Hp) as [Hp1 Hr1].
      destruct (step e p) as [p1 r1]. simpl in *.
      destruct (IH p1 Hp1) as [Hr2 Hp2].
      destruct (run es' p1) as [p2 r2]. simpl in *.
      split; [apply Forall_app; split; assumption|assumption]. }
  destruct (H initial_page) as [Hr [Hs _]].
  - split; [simpl; lia|constructor].
  - split; assumption.
Qed.

(** X12. The items never carry a link twice, whatever the user does and
    whatever the network answers, stale and failed answers included. *)
Theorem items_never_repeat_a_link (es : list Event) :
  NoDup (links (items (state (fst (run es initial_page))))).
Proof.
  assert (H : forall p, NoDup (links (items (state p))) ->
            NoDup (links (items (state (fst (run es p)))))).
  { induction es as [|e es' IH]; intros p Hp; simpl; [assumption|].
    pose proof (step_items_NoDup e p Hp) as Hp1.
    destruct (step e p) as [p1 r1]. simpl in *.
    specialize (IH p1 Hp1). now destruct (run es' p1). }
  apply H. constructor.
Qed.

Lemma step_blocked (e : Event) (p : Page) :
  passive e = true -> blocked p ->
  snd (step e p) = [] /\ blocked (fst (step e p)).
Proof.
  intros He Hb. destruct e as [text| | |i o]; simpl in *; try discriminate.
  - split; [reflexivity|exact Hb].
  - assert (Hg : may_load_more (state p) = false).
    { unfold may_load_more. destruct Hb as [-> | [-> | ->]]; simpl;
        rewrite ?andb_false_r; reflexivity. }
    rewrite Hg. split; [reflexivity|exact Hb].
Qed.

Lemma step_passive (e : Event) (p : Page) :
  passive e = true ->
  snd (step e p) = []
  \/ (exists r, snd (step e p) = [r]) /\ blocked (fst (step e p)).
Proof.
  intros He. destruct e as [text| | |i o]; simpl in *; try discriminate.
  - now left.
  - destruct (may_load_more (state p)); [|now left].
    destruct (launch_cases (Js.trim (query (state p))) (start (state p)) true p (state p))
      as [(_ & -> & _)|(_ & ->)]; [now left|].
    right. split; [eauto|]. right. left. reflexivity.
Qed.

Lemma run_blocked (es : list Event) :
  forall p, Forall (fun e => passive e = true) es -> blocked p ->
    snd (run es p) = [].
Proof.
  induction es as [|e es' IH]; intros p Hes Hb; simpl; [reflexivity|].
  apply Forall_cons in Hes as [He Hes].
  destruct (step_blocked e p He Hb) as [Hr1 Hb1].
  destruct (step e p) as [p1 r1]. simpl in *. subst r1.
  specialize (IH p1 Hes Hb1). destruct (run es' p1) as [p2 r2]. simpl in *.
  now subst.
Qed.

(** X13. However often the sentinel becomes visible, and whatever is typed
    meanwhile, at most one continuation request goes out until a fetch
    settles or a search is submitted. *)
Theorem scrolling_sends_at_most_one_request (es : list Event) (p : Page) :
  Forall (fun e => passive e = true) es ->
  (length (snd (run es p)) <= 1)%nat.
Proof.
  revert p. induction es as [|e es' IH]; intros p Hes; simpl; [lia|].
  apply Forall_cons in Hes as [He Hes].
  pose proof (step_passive e p He) as Hstep.
  pose proof (IH (fst (step e p)) Hes) as IH1.
  pose proof (run_blocked es' (fst (step e p)) Hes) as Hblk.
  destruct (step e p) as [p1 r1]. simpl in *.
  destruct (run es' p1) as [p2 r2]. simpl in *.
  destruct Hstep as [->|[[r ->] Hb]]; simpl; [assumption|].
  rewrite (Hblk Hb). simpl. lia.
Qed.

Lemma run_cons_fst (e : Event) (es : list Event) (p : Page) :
  fst (run (e :: es) p) = fst (run es (fst (step e p))).
Proof.
  cbn [run]. destruct (step e p) as [p1 r1]. cbn [fst].
  destruct (run es p1). reflexivity.
Qed.

Lemma step_in_step (e : Event) (p : Page) :
  in_session e = true -> in_step p -> in_step (fst (step e p)).
Proof.
  intros He Hp. destruct e as [text| | |i o]; simpl in *; try discriminate.
  - exact Hp.
  - destruct (may_load_more (state p)) eqn:Hg; [|exact Hp].
    apply may_load_more_true in Hg as (_ & Hlm & Hl).
    assert (Hout : outstanding p = []).
    { destruct Hp as [(H & _)|(_ & H)]; [assumption|].
      rewrite Hl, Hlm in H. discriminate. }
    destruct (launch_cases (Js.trim (query (state p))) (start (state p)) true p (state p))
      as [(_ & -> & _ & Hl' & Hlm')|(_ & ->)]; simpl.
    + left. repeat split; assumption.
    + right. rewrite Hout. simpl. split; [reflexivity|apply orb_true_r].
  - destruct (outstanding p !! i) as [f|] eqn:Hi; [|exact Hp]. simpl. left.
    destruct Hp as [(H & _)|(Hlen & _)]; [rewrite H in Hi; discriminate|].
    destruct (outstanding p) as [|f0 [|f1 l]]; simpl in Hlen; try discriminate.
    destruct i; [|discriminate]. repeat split; reflexivity.
Qed.

Lemma submit_in_step (p : Page) : idle p -> in_step (fst (step Submit p)).
Proof.
  intros (Hout & Hl & Hlm). simpl.
  destruct (loading (state p) || negb (Js.truthy (Js.trim (query (state p)))));
    [left; repeat split; assumption|].
  destruct (launch_cases (Js.trim (query (state p))) 1 false p
              (handleSearch_reset (state p))) as [(Hgt & _)|(_ & ->)]; [lia|].
  right. simpl. rewrite Hout. auto.
Qed.

(** X14. In a session opened from an idle page at most one fetch is
    outstanding at any time, and the loading flags are both down exactly
    when none is: a settled fetch always frees the trigger again. *)
Theorem one_fetch_at_a_time (p0 : Page) (es : list Event) :
  idle p0 ->
  Forall (fun e => in_session e = true) es ->
  let p := fst (run (Submit :: es) p0) in
  (length (outstanding p) <= 1)%nat
  /\ (outstanding p = [] <->
      loading (state p) = false /\ loadingMore (state p) = false).
Proof.
  intros Hidle Hes p.
  assert (Hp : in_step p).
  { subst p. rewrite run_cons_fst. pose proof (submit_in_step p0 Hidle) as H1.
    revert H1. generalize (fst (step Submit p0)). clear -Hes.
    induction es as [|e es' IH]; intros q Hq; [assumption|].
    apply Forall_cons in Hes as [He Hes]. rewrite run_cons_fst.
    apply IH; [assumption|]. now apply step_in_step. }
  destruct Hp as [(Hout & Hl & Hlm)|(Hlen & Hbusy)].
  - rewrite Hout. simpl. split; [lia|]. tauto.
  - split; [lia|]. split.
    + intros H. rewrite H in Hlen. discriminate.
    + intros [Hl Hlm]. rewrite Hl, Hlm in Hbusy. discriminate.
Qed.

End Runs.

(** ** Images: what is requested, and when nothing is *)

Section ImageRequests.
Import ImageGrid.

(** X15. In every state the grid can reach: an image rendered as a direct
    request for some URL (thumbnail in the grid, original in the
    lightbox) is, after a load failure, rendered as a request through the
    proxy for that same URL; after a load failure of that request the
    placeholder is rendered in both views. *)
Theorem retry_same_url_then_placeholder (history : list GridEvent)
    (item : ImageResult) (preferThumbnail : bool) (url : string) :
  let g := handles history initial_grid in
  rendered (view g) item preferThumbnail = Some (Origin url) ->
  let g1 := handles [Fails (link item); Renders] g in
  let g2 := handles [Fails (link item); Renders] g1 in
  rendered (view g1) item preferThumbnail = Some (ViaProxy url)
  /\ rendered (view g2) item true = None
  /\ rendered (view g2) item false = None.
Proof.
  intros g H g1 g2.
  assert (Hc : coherent g (link item)) by apply handles_coherent, initial_coherent.
  assert (Hfv : flag (failedMap (view g)) (link item) = false).
  { unfold rendered in H. destruct (flag (failedMap (view g)) (link item));
      [discriminate|reflexivity]. }
  assert (Hpv : flag (useProxyMap (view g)) (link item) = false).
  { unfold rendered, srcFor in H. rewrite Hfv in H.
    destruct (flag (useProxyMap (view g)) (link item)); [discriminate|reflexivity]. }
  assert (Hi : inherited (link item) = false).
  { unfold coherent in Hc. simpl in Hc.
    destruct Hc as [(Hf & _)|[(Hi & _)|(Hi & _)]]; [congruence|assumption|assumption]. }
  destruct (fails_coherent (link item) g Hc) as (Hc1 & _ & Hs1).
  specialize (Hs1 Hi). unfold phase in Hs1. rewrite Hfv, Hpv in Hs1.
  assert (Hcg1 : coherent g1 (link item)) by (apply handle_coherent; exact Hc1).
  assert (Hv1 : load_state (view g1) (link item)
                = {| usingProxy := true; failed := false |}) by exact Hs1.
  assert (Hfv1 : flag (failedMap (view g1)) (link item) = false)
    by exact (f_equal failed Hv1).
  assert (Hpv1 : flag (useProxyMap (view g1)) (link item) = true)
    by exact (f_equal usingProxy Hv1).
  clear Hs1 Hc1 Hv1. clearbody g1.
  destruct (fails_coherent (link item) g1 Hcg1) as (_ & _ & Hs2).
  specialize (Hs2 Hi). unfold phase in Hs2. rewrite Hfv1, Hpv1 in Hs2.
  assert (Hv2 : load_state (view g2) (link item)
                = {| usingProxy := false; failed := true |}) by exact Hs2.
  assert (Hfv2 : flag (failedMap (view g2)) (link item) = true)
    by exact (f_equal failed Hv2).
  clear Hs2 Hv2. clearbody g2.
  unfold rendered, srcFor in *. rewrite Hfv, Hpv in H. rewrite Hfv1, Hpv1, Hfv2.
  injection H as <-. auto.
Qed.

Lemma load_failure_keeps_failed (x l : string) (s : State) :
  flag (failedMap s) l = true -> flag (failedMap (load_failure x s)) l = true.
Proof.
  intros Hl. destruct (decide (x = l)) as [->|Hne].
  - unfold load_failure. now rewrite Hl.
  - pose proof (load_failure_other x l s Hne) as Ho.
    unfold load_state in Ho. injection Ho as _ ->. exact Hl.
Qed.

(** The same across renders: a link marked failed stays marked, in the
    pending state and, once rendered so, in every later render. *)
Lemma onError_in_keeps_failed (v : State) (x l : string) (s : State) :
  flag (failedMap s) l = true -> flag (failedMap (onError_in v x s)) l = true.
Proof.
  intros Hl. unfold onError_in, enableProxy, markFailed.
  destruct (negb (flag (useProxyMap v) x)); simpl; [exact Hl|].
  destruct (flag (failedMap s) x); [exact Hl|].
  destruct (decide (x = l)) as [->|Hne]; [apply flag_insert|].
  now rewrite flag_insert_ne.
Qed.

Lemma failed_kept_across_renders (es : list GridEvent) (g : Grid) (l : string) :
  flag (failedMap (cur g)) l = true ->
  flag (failedMap (cur (handles es g))) l = true
  /\ (flag (failedMap (view g)) l = true ->
      flag (failedMap (view (handles es g))) l = true).
Proof.
  revert g. induction es as [|e es' IH]; intros g Hc; [now split|].
  cbn [handles].
  assert (Hc' : flag (failedMap (cur (handle e g))) l = true).
  { destruct e as [x|]; cbn [handle]; [|exact Hc].
    destruct (flag (failedMap (view g)) x); [exact Hc|].
    cbn [cur]. now apply onError_in_keeps_failed. }
  destruct (IH _ Hc') as [H1 H2]. split; [exact H1|].
  intros Hv. apply H2.
  destruct e as [x|]; cbn [handle]; [|exact Hc].
  destruct (flag (failedMap (view g)) x); exact Hv.
Qed.

(** X16. Once a link shows the placeholder it keeps it, whatever images fail
    afterwards; nothing is requested for it again in either view. *)
Theorem placeholder_is_permanent (ls : list string) (s : State) (item : ImageResult)
    (preferThumbnail : bool) :
  rendered s item true = None ->
  rendered (load_failures ls s) item preferThumbnail = None.
Proof.
  unfold rendered. intros H.
  assert (Hf : flag (failedMap s) (link item) = true)
    by (destruct (flag (failedMap s) (link item)); [reflexivity|discriminate]).
  clear H. revert s Hf. induction ls as [|x ls' IH]; intros s Hf; simpl.
  - now rewrite Hf.
  - apply IH. now apply load_failure_keeps_failed.
Qed.

End ImageRequests.

(** ** The lightbox *)

Section LightboxFacts.
Import Lightbox.

Variable number : Type.
Variable one : number.
Variable zoom_in zoom_out : number -> number.

Local Abbreviation View := (View number).
Local Abbreviation move := (move number one zoom_in zoom_out).
Local Abbreviation moves := (moves number one zoom_in zoom_out).

Lemma shown_in_range {A : Type} (items : list A) (v : View) :
  is_Some (shown number items v) <->
  exists i, expandedIndex number v = Some i /\ 0 <= i < Z.of_nat (length items).
Proof.
  unfold shown. destruct (expandedIndex number v) as [i|].
  - destruct (Z.leb_spec 0 i) as [Hi|Hi].
    + rewrite lookup_lt_is_Some. split.
      * intros H. exists i. split; [reflexivity|lia].
      * intros (j & Hj & Hr). injection Hj as <-. lia.
    + split; [intros [x Hx]; discriminate|].
      intros (j & Hj & Hr). injection Hj as <-. lia.
  - split; [intros [x Hx]; discriminate|]. intros (j & Hj & _). discriminate.
Qed.

Lemma move_in_range (len : nat) (m : Move) (v : View) (i : Z) :
  expandedIndex number v = Some i -> 0 <= i < Z.of_nat len ->
  expandedIndex number (move len m v) = None
  \/ exists j, expandedIndex number (move len m v) = Some j /\ 0 <= j < Z.of_nat len.
Proof.
  intros Hv Hi. destruct m as [| |key]; simpl.
  - right. unfold prev. rewrite Hv. simpl. eexists. split; [reflexivity|lia].
  - right. unfold next. rewrite Hv. simpl. eexists. split; [reflexivity|lia].
  - unfold onKey. rewrite Hv.
    destruct (decide (key = "Escape")) as [->|_]; [left; reflexivity|].
    destruct (decide (key = "ArrowLeft")) as [->|_].
    { right. simpl. rewrite Hv. eexists. split; [reflexivity|lia]. }
    destruct (decide (key = "ArrowRight")) as [->|_].
    { right. simpl. rewrite Hv. eexists. split; [reflexivity|lia]. }
    right. exists i.
    destruct (decide (key = "+")), (decide (key = "=")), (decide (key = "-"));
      simpl; auto.
Qed.

(** X17. Opened on an entry of the list, the overlay stays on an entry of the
    list through any sequence of Prev, Next and key presses, until it is
    closed: the first entry is not left backwards nor the last one
    forwards. *)
Theorem lightbox_stays_on_the_list {A : Type} (items : list A) (ms : list Move)
    (v : View) :
  is_Some (shown number items v) ->
  expandedIndex number (moves (length items) ms v) = None
  \/ is_Some (shown number items (moves (length items) ms v)).
Proof.
  revert v. induction ms as [|m ms' IH]; intros v Hv; simpl; [now right|].
  apply shown_in_range in Hv as (i & Hi & Hr).
  destruct (move_in_range (length items) m v i Hi Hr) as [Hnone|(j & Hj & Hjr)].
  - left. clear -Hnone. revert Hnone. generalize (move (length items) m v).
    induction ms' as [|m' ms'' IH']; intros w Hw; simpl; [assumption|].
    apply IH'. destruct m' as [| |key]; simpl.
    + unfold prev. now rewrite Hw.
    + unfold next. now rewrite Hw.
    + unfold onKey. now rewrite Hw.
  - apply IH. apply shown_in_range. eauto.
Qed.

(** X18. While the overlay is closed, the buttons and every key leave the view
    as it is; only opening an entry changes it. *)
Theorem closed_lightbox_ignores_moves (len : nat) (ms : list Move) (v : View) :
  expandedIndex number v = None -> moves len ms v = v.
Proof.
  intros Hv. induction ms as [|m ms' IH]; simpl; [reflexivity|].
  assert (Hm : move len m v = v).
  { destruct v as [idx sc]. simpl in Hv. subst idx.
    destruct m as [| |key]; reflexivity. }
  now rewrite Hm.
Qed.

End LightboxFacts.

(** ** The image proxy, all paths *)

Section ImageProxyMore.
Import ImageProxy ProxySpec.

Variable parse : string -> option URL.

Lemma GET_rejected (net : string -> Upstream) (u : option string) :
  (forall url, u = Some url ->
     Js.truthy url = false \/ validate parse url = None) ->
  snd (GET parse net u) = []
  /\ status (fst (GET parse net u)) = 400
  /\ headers (fst (GET parse net u)) = CORS_HEADERS.
Proof.
  intros H. unfold GET. destruct u as [url|]; [|auto].
  destruct (H url eq_refl) as [->|Hv]; [auto|].
  destruct (Js.truthy url); [|auto]. rewrite Hv. auto.
Qed.

Lemma GET_accepted (net : string -> Upstream) (url : string) (parsed : URL) :
  Js.truthy url = true -> validate parse url = Some parsed ->
  GET parse net (Some url)
  = (match await_fetch (net url) with
     | Resolved st txt ct content =>
         if negb (ok st) then
           if Js.json_status (Z.max 400 st) then
             {| status := Z.max 400 st; headers := CORS_HEADERS;
                body := Json "Upstream fetch failed" (Some st) (Some txt) |}
           else
             {| status := 502; headers := CORS_HEADERS;
                body := Json "Proxy fetch error" None None |}
         else
           {| status := 200;
              headers :=
                [("content-type",
                  match Js.or_else ct (Some "application/octet-stream") with
                  | Some v => v
                  | None => "application/octet-stream"
                  end);
                 ("cache-control",
                  "public, max-age=86400, stale-while-revalidate=604800")]
                ++ CORS_HEADERS;
              body := Stream content |}
     | AbortError =>
         {| status := 502; headers := CORS_HEADERS;
            body := Json "Upstream timeout" None None |}
     | OtherError =>
         {| status := 502; headers := CORS_HEADERS;
            body := Json "Proxy fetch error" None None |}
     end, [url]).
Proof. intros Ht Hv. unfold GET. now rewrite Ht, Hv. Qed.

Lemma GET_cases (net : string -> Upstream) (u : option string) :
  (forall url, u = Some url -> Js.truthy url = false \/ validate parse url = None)
  \/ exists url parsed,
       u = Some url /\ Js.truthy url = true /\ validate parse url = Some parsed.
Proof.
  destruct u as [url|]; [|left; intros url H; discriminate].
  destruct (Js.truthy url) eqn:Ht; [|left; intros ? H; injection H as <-; auto].
  destruct (validate parse url) as [parsed|] eqn:Hv.
  - right. eauto.
  - left. intros ? H. injection H as <-. auto.
Qed.

(** X19. Every answer of the proxy, errors included, and the answer to the
    preflight carry the two cross-origin headers. *)
Theorem proxy_always_cross_origin (net : string -> Upstream) (u : option string) :
  cross_origin (fst (GET parse net u)) /\ cross_origin OPTIONS.
Proof.
  split; [|split; reflexivity].
  destruct (GET_cases net u) as [Hrej|(url & parsed & -> & Ht & Hv)].
  - destruct (GET_rejected net u Hrej) as (_ & _ & Hh).
    unfold cross_origin. rewrite Hh. split; reflexivity.
  - rewrite (GET_accepted net url parsed Ht Hv). simpl.
    destruct (await_fetch (net url)) as [st txt ct c| |]; try (split; reflexivity).
    destruct (ok st); simpl; [split; reflexivity|].
    destruct (Js.json_status (Z.max 400 st)); split; reflexivity.
Qed.

(** X20. The proxy fetches nothing but the target it was given, and that at
    most once: exactly once when the target is non-empty and passes
    validation, not at all otherwise. *)
Theorem proxy_fetches_only_the_target (net : string -> Upstream) (u : option string) :
  (snd (GET parse net u) = []
   /\ forall url, u = Some url -> Js.truthy url = false \/ validate parse url = None)
  \/ (exists url,
        u = Some url /\ snd (GET parse net u) = [url]
        /\ Js.truthy url = true /\ is_Some (validate parse url)).
Proof.
  destruct (GET_cases net u) as [Hrej|(url & parsed & -> & Ht & Hv)].
  - left. split; [apply (GET_rejected net u Hrej)|assumption].
  - right. exists url. rewrite (GET_accepted net url parsed Ht Hv).
    repeat split; eauto.
Qed.

(** X21. The proxy answers 200 exactly when the target is valid and the
    upstream answered in time with a success status; the body is then
    the upstream content, unmodified, under the upstream content type
    (a generic binary type when that is missing or empty) and the fixed
    cache directive. *)
Theorem proxy_success (net : string -> Upstream) (u : option string) :
  status (fst (GET parse net u)) = 200 <->
  exists url parsed t st txt ct content,
    u = Some url /\ Js.truthy url = true /\ validate parse url = Some parsed
    /\ net url = Answers t st txt ct content /\ t < timeout_ms /\ ok st = true
    /\ body (fst (GET parse net u)) = Stream content
    /\ header "content-type" (headers (fst (GET parse net u)))
       = Some (if Js.truthy_opt ct then default "" ct else "application/octet-stream")
    /\ header "cache-control" (headers (fst (GET parse net u)))
       = Some "public, max-age=86400, stale-while-revalidate=604800".
Proof.
  destruct (GET_cases net u) as [Hrej|(url & parsed & -> & Ht & Hv)].
  - destruct (GET_rejected net u Hrej) as (_ & Hs & _). rewrite Hs.
    split; [discriminate|].
    intros (url & parsed & t & st & txt & ct & c & -> & Ht & Hv & _).
    destruct (Hrej url eq_refl); congruence.
  - rewrite (GET_accepted net url parsed Ht Hv). simpl. split.
    + intros Hs. exists url, parsed.
      destruct (net url) as [t st txt ct c|t|] eqn:Hnet; simpl in *.
      * destruct (Z.ltb_spec t timeout_ms); [|discriminate].
        destruct (ok st) eqn:Hok; simpl in *;
          [|destruct (Js.json_status (Z.max 400 st)); simpl in *; lia].
        exists t, st, txt, ct, c. repeat split; try assumption; try reflexivity.
        destruct ct as [[|? ?]|]; reflexivity.
      * destruct (t <? timeout_ms); discriminate.
      * discriminate.
    + intros (url' & parsed' & t & st & txt & ct & c & Hu & _ & _ & Hnet & Hlt & Hok & _).
      injection Hu as <-. rewrite Hnet. simpl.
      destruct (Z.ltb_spec t timeout_ms); [|lia]. now rewrite Hok.
Qed.

End ImageProxyMore.

(** ** Instances *)

Lemma upstream_request_shape_witness :
  let r := {| SearchRoute.param_q := Some "cats"; SearchRoute.param_start := Some "11" |} in
  let u := {| SearchRoute.up_key := "key"; SearchRoute.up_cx := "cx";
              SearchRoute.up_q := "cats"; SearchRoute.up_num := 10;
              SearchRoute.up_start := Js.Num 11 |} in
  SearchRoute.up_num u = 10
  /\ exists n, SearchRoute.up_start u = Js.Num n /\ 1 <= n.
Proof.
  intros r u.
  destruct (upstream_request_shape Samples.config Samples.upstream_refuses r u)
    as (H1 & _ & _ & _ & H2 & _).
  - simpl. apply list_elem_of_singleton. reflexivity.
  - split; [exact H1|exact H2].
Defined.


Lemma page_fetch_through_route_witness :
  let upstream := fun _ : SearchRoute.UpstreamRequest =>
                    Wire.Responded 200 (Some (Samples.page ["b"] None)) in
  SearchPage.fetchResults (EndToEnd.via_route Samples.config upstream) "cats" 2 true
    Samples.after_first_page
  = SearchPage.fetchResults (fun _ => Wire.Responded 200 (Some (Samples.page ["b"] None)))
      "cats" 2 true Samples.after_first_page.
Proof.
  intros upstream.
  assert (Ho : 1 <= 2 <= 100) by lia.
  destruct (page_fetch_through_route Samples.config upstream "key" "cx" "cats" 2 true
              Samples.after_first_page eq_refl eq_refl eq_refl eq_refl eq_refl Ho)
    as [_ H].
  apply (H 200 (Samples.page ["b"] None)); reflexivity.
Defined.


Lemma search_starts_from_scratch_witness :
  let net := fun _ : SearchPage.Request => Wire.Rejected in
  SearchPage.handleSearch net Samples.after_first_page
  = SearchPage.handleSearch net (SearchPage.setQuery "cats" SearchPage.initial)
  /\ SearchPage.items (fst (SearchPage.handleSearch net Samples.after_first_page)) = [].
Proof.
  intros net.
  destruct (search_starts_from_scratch net Samples.after_first_page
              (SearchPage.setQuery "cats" SearchPage.initial)) as (H1 & _ & H3);
    [reflexivity|reflexivity|].
  split; [exact H1|]. apply H3. exact I.
Defined.

Lemma transport_failure_keeps_results_witness :
  let s' := fst (SearchPage.fetchResults (fun _ => Wire.Responded 200 None) "cats" 2 true
                   Samples.after_first_page) in
  SearchPage.error s' = Some "Could not connect to the search service."
  /\ SearchPage.hasMore s' = false
  /\ SearchPage.items s' = SearchPage.items Samples.after_first_page.
Proof.
  intros s'.
  destruct (transport_failure_keeps_results (fun _ => Wire.Responded 200 None) "cats" 2 true
              Samples.after_first_page) as (H1 & H2 & H3 & _).
  - lia.
  - right. exists 200. reflexivity.
  - split; [exact H1|]. split; [exact H2|exact H3].
Defined.

Lemma unknown_total_never_stops_witness :
  SearchPage.hasMore
    (fst (SearchPage.fetchResults
            (fun _ => Wire.Responded 200 (Some (Samples.page ["b"] (Some "about 5"))))
            "cats" 2 true Samples.after_first_page)) = true.
Proof.
  rewrite (unknown_total_never_stops
             (fun _ => Wire.Responded 200 (Some (Samples.page ["b"] (Some "about 5"))))
             "cats" 2 true Samples.after_first_page 200
             (Samples.page ["b"] (Some "about 5"))).
  - reflexivity.
  - lia.
  - reflexivity.
  - reflexivity.
  - right. exists "about 5". split; reflexivity.
Defined.

Lemma links_after_fetch_witness :
  "a" ∈ SearchPage.links
          (SearchPage.items
             (fst (SearchPage.fetchResults
                     (fun _ => Wire.Responded 200 (Some (Samples.page ["b"] None)))
                     "cats" 2 true Samples.after_first_page))).
Proof.
  apply (links_after_fetch (fun _ => Wire.Responded 200 (Some (Samples.page ["b"] None)))
           "cats" 2 true Samples.after_first_page 200 (Samples.page ["b"] None) "a").
  - lia.
  - reflexivity.
  - reflexivity.
  - left. split; [reflexivity|]. apply list_elem_of_singleton. reflexivity.
Defined.

Lemma scrolling_sends_at_most_one_request_witness :
  (length (snd (SearchPage.run
                  [SearchPage.Visible; SearchPage.Typed "dogs"; SearchPage.Visible;
                   SearchPage.Visible]
                  {| SearchPage.state := Samples.after_first_page;
                     SearchPage.outstanding := [] |})) <= 1)%nat.
Proof.
  apply scrolling_sends_at_most_one_request. repeat constructor.
Defined.

Lemma one_fetch_at_a_time_witness :
  let p := fst (SearchPage.run
                  [SearchPage.Submit;
                   SearchPage.Settled 0 (Wire.Responded 200 (Some (Samples.page ["a"] None)));
                   SearchPage.Visible; SearchPage.Visible]
                  (Samples.typed "cats")) in
  (length (SearchPage.outstanding p) <= 1)%nat.
Proof.
  intros p.
  destruct (one_fetch_at_a_time (Samples.typed "cats")
              [SearchPage.Settled 0 (Wire.Responded 200 (Some (Samples.page ["a"] None)));
               SearchPage.Visible; SearchPage.Visible]) as [H _].
  - repeat split.
  - repeat constructor.
  - exact H.
Defined.

Lemma retry_same_url_then_placeholder_witness :
  let item := {| ImageGrid.title := "t"; ImageGrid.link := "x";
                 ImageGrid.thumbnail := Some "x-small" |} in
  ImageGrid.rendered
    (ImageGrid.view
       (ImageGrid.handles [ImageGrid.Fails "x"; ImageGrid.Renders] ImageGrid.initial_grid))
    item true
  = Some (ImageGrid.ViaProxy "x-small").
Proof.
  intros item.
  destruct (retry_same_url_then_placeholder [] item true "x-small")
    as [H _]; [reflexivity|exact H].
Defined.

Lemma placeholder_is_permanent_witness :
  let item := {| ImageGrid.title := "t"; ImageGrid.link := "x";
                 ImageGrid.thumbnail := None |} in
  ImageGrid.rendered
    (ImageGrid.load_failures ["y"; "x"; "y"]
       (ImageGrid.load_failures ["x"; "x"] ImageGrid.initial)) item false = None.
Proof.
  intros item.
  apply (placeholder_is_permanent ["y"; "x"; "y"]
           (ImageGrid.load_failures ["x"; "x"] ImageGrid.initial) item false).
  reflexivity.
Defined.

Lemma lightbox_stays_on_the_list_witness :
  let v := Lightbox.openAt Z 1 2 {| Lightbox.expandedIndex := None; Lightbox.scale := 1 |} in
  let ms := [Lightbox.Next; Lightbox.Next; Lightbox.Key "ArrowRight"; Lightbox.Prev] in
  Lightbox.expandedIndex Z
    (Lightbox.moves Z 1 (Z.add 1) (Z.add (-1)) (length ["a"; "b"; "c"]) ms v) = None
  \/ is_Some (Lightbox.shown Z ["a"; "b"; "c"]
                (Lightbox.moves Z 1 (Z.add 1) (Z.add (-1)) (length ["a"; "b"; "c"]) ms v)).
Proof.
  intros v ms.
  apply (lightbox_stays_on_the_list Z 1 (Z.add 1) (Z.add (-1)) ["a"; "b"; "c"] ms v).
  exists "c". reflexivity.
Defined.

Lemma closed_lightbox_ignores_moves_witness :
  let v := {| Lightbox.expandedIndex := None; Lightbox.scale := 1 |} in
  Lightbox.moves Z 1 (Z.add 1) (Z.add (-1)) 3
    [Lightbox.Key "ArrowRight"; Lightbox.Next; Lightbox.Key "+"] v = v.
Proof.
  intros v.
  apply (closed_lightbox_ignores_moves Z 1 (Z.add 1) (Z.add (-1)) 3).
  reflexivity.
Defined.
